(** * Notion journal export to Obsidian: a shallow embedding

    This development embeds [src/notion/exportNotionJournalToObsidian.ts]
    and states its specification over the embedding.

    Conventions of the embedding.
    - A JavaScript string is the list of its UTF-16 code units
      ([jsstring]); [lit] turns an ASCII literal into such a list.
    - A template literal [`${a}xyz${b}`] is [a ++ lit "xyz" ++ b].
    - The Notion API is a read-only query interface during one export:
      a call is a function of its arguments, answering with a response
      or with a rejection. The calls to the file system are modelled
      the same way.
    - A promise is an [outcome]: resolved, rejected, or (for the
      recursions that follow cursors and block identifiers served by the
      API) out of fuel. *)

From Stdlib Require Import Strings.String Strings.Ascii NArith DecimalString DecimalNat.
From stdpp Require Import gmap list.

(** ** Strings *)

Abbreviation jsstring := (list N).

Fixpoint lit (s : string) : jsstring :=
  match s with
  | EmptyString => []
  | String a s' => N_of_ascii a :: lit s'
  end.
Arguments lit _%_string.

(** Line feed and carriage return, and other characters that are
    awkward to write inside a literal. *)
Definition LF : N := 10.
Definition CR : N := 13.
Definition SP : N := 32.
Definition HYPHEN : N := 45.
Definition nl : jsstring := [LF].

(** JavaScript truthiness of a [string | null] value: [null] and the
    empty string are falsy. *)
Definition truthy (v : option jsstring) : bool :=
  match v with
  | Some (_ :: _) => true
  | _ => false
  end.

(** ** Rich text (InlineTextComposer) *)

Record Annotations := {
  bold : bool;
  italic : bool;
  strikethrough : bool;
  underline : bool;
  code : bool
}.

Inductive RichTextType :=
| TextItem
| MentionItem
| EquationItem (expression : jsstring).

Record RichTextItem := {
  plain_text : jsstring;
  type : RichTextType;
  annotations : Annotations;
  href : option jsstring
}.

(** The callback of [richText.map] in [toInlineMarkdown]. *)
Definition inlineItem (item : RichTextItem) : jsstring :=
  let base := plain_text item in
  match type item with
  | EquationItem expression => lit "$" ++ expression ++ lit "$"
  | _ =>
    let withCode :=
      if code (annotations item) then lit "`" ++ base ++ lit "`" else base in
    let withBold :=
      if bold (annotations item) then lit "**" ++ withCode ++ lit "**"
      else withCode in
    let withItalic :=
      if italic (annotations item) then lit "*" ++ withBold ++ lit "*"
      else withBold in
    let withStrike :=
      if strikethrough (annotations item) then lit "~~" ++ withItalic ++ lit "~~"
      else withItalic in
    let withUnderline :=
      if underline (annotations item) then lit "<u>" ++ withStrike ++ lit "</u>"
      else withStrike in
    let withLink :=
      match href item with
      | Some (c :: h) => lit "[" ++ withUnderline ++ lit "](" ++ (c :: h) ++ lit ")"
      | _ => withUnderline
      end in
    withLink
  end.

Definition toInlineMarkdown (richText : list RichTextItem) : jsstring :=
  concat (map inlineItem richText).

(** A marker that is present only when its annotation is set. *)
Definition marker (set : bool) (m : jsstring) : jsstring :=
  if set then m else [].

Definition isEquation (item : RichTextItem) : bool :=
  match type item with EquationItem _ => true | _ => false end.

Definition plainRun (a : Annotations) (t : jsstring) (h : option jsstring)
  : RichTextItem :=
  {| plain_text := t; type := TextItem; annotations := a; href := h |}.

Definition noStyle : Annotations :=
  {| bold := false; italic := false; strikethrough := false;
     underline := false; code := false |}.

(** ** Promises and the Notion client *)

(** The state a promise settles in. A synchronous [throw] inside the
    modelled functions is a rejection as well. [OutOfFuel] is not a state
    of the program: it marks that the bound given to a recursion was too
    small to reach the settled state. *)
Inductive outcome (A : Type) :=
| Resolved (a : A)
| Rejected (reason : jsstring)
| OutOfFuel.
Arguments Resolved {A} a.
Arguments Rejected {A} reason.
Arguments OutOfFuel {A}.

#[global] Instance outcome_ret : MRet outcome := @Resolved.
#[global] Instance outcome_bind : MBind outcome := fun A B k m =>
  match m with
  | Resolved a => k a
  | Rejected e => Rejected e
  | OutOfFuel => OutOfFuel
  end.

Ltac unbind := unfold mbind, outcome_bind, mret, outcome_ret in *.

(** [Promise.all] over promises that have all been started: the values
    in order when every one resolves. Which rejection wins when several
    promises reject is decided by time in JavaScript; here it is the first
    in list order. *)
Fixpoint Promise_all {A} (ps : list (outcome A)) : outcome (list A) :=
  match ps with
  | [] => Resolved []
  | p :: ps' => a ← p; rest ← Promise_all ps'; Resolved (a :: rest)
  end.

(** What one API call answers. *)
Inductive reply (A : Type) :=
| Answer (a : A)
| Failure (reason : jsstring).
Arguments Answer {A} a.
Arguments Failure {A} reason.

(** An entry of a listing: a fully resolved record, or a partial one
    (which [isFullBlock] / [isFullPage] reject). *)
Inductive Entry (T : Type) :=
| Full (record : T)
| Partial (id : jsstring).
Arguments Full {T} record.
Arguments Partial {T} id.

Record ListResponse (T : Type) := {
  results : list (Entry T);
  has_more : bool;
  next_cursor : option jsstring
}.
Arguments results {T} _.
Arguments has_more {T} _.
Arguments next_cursor {T} _.

(** [response.results.filter(isFullBlock)], [.filter(isFullPage)]. *)
Fixpoint filterFull {T} (entries : list (Entry T)) : list T :=
  match entries with
  | [] => []
  | Full record :: rest => record :: filterFull rest
  | Partial _ :: rest => filterFull rest
  end.

(** ** Blocks *)

(** A file object: [type === "external"] with [external.url], or a file
    hosted by Notion with [file.url]. *)
Inductive FileObject :=
| ExternalFile (url : jsstring)
| HostedFile (url : jsstring).

Inductive Icon :=
| EmojiIcon (emoji : jsstring)
| OtherIcon.

Inductive BlockData :=
| Paragraph (rich_text : list RichTextItem)
| Heading1 (rich_text : list RichTextItem)
| Heading2 (rich_text : list RichTextItem)
| Heading3 (rich_text : list RichTextItem)
| ToDo (rich_text : list RichTextItem) (checked : bool)
| Toggle (rich_text : list RichTextItem)
| Quote (rich_text : list RichTextItem)
| Callout (icon : option Icon) (rich_text : list RichTextItem)
| Code (language : option jsstring) (rich_text : list RichTextItem)
| Divider
| EquationBlock (expression : jsstring)
| Image (image : FileObject) (caption : list RichTextItem)
| Bookmark (url : jsstring)
| File (file : FileObject) (caption : list RichTextItem)
| Video (video : FileObject)
| Audio (audio : FileObject)
| Pdf (pdf : FileObject) (caption : list RichTextItem)
| LinkPreview (url : jsstring)
| ChildPage (title : jsstring)
| ChildDatabase (title : jsstring)
| TableOfContents
| BulletedListItem (rich_text : list RichTextItem)
| NumberedListItem (rich_text : list RichTextItem)
| Unsupported (type_name : jsstring).

Record Block := {
  block_id : jsstring;
  has_children : bool;
  data : BlockData
}.

(** ** Pages and databases *)

Inductive Property :=
| TitleProperty (title : list RichTextItem)
| OtherProperty.

Record Page := {
  page_id : jsstring;
  created_time : jsstring;
  properties : list Property
}.

Record DataSource := { data_source_id : jsstring }.

(** A database response; [data_sources] is [None] when the key is
    absent from the object (a partial database response). *)
Record Database := { data_sources : option (list DataSource) }.

(** The client. Every listing call is made with [page_size: 100]; the
    remaining arguments are the identifier and [start_cursor]. *)
Record Notion := {
  blocks_children_list : jsstring -> option jsstring -> reply (ListResponse Block);
  databases_retrieve : jsstring -> reply Database;
  dataSources_query : jsstring -> option jsstring -> reply (ListResponse Page)
}.

(** ** PaginatedCollector *)

(** The inner [fetchPage] of [fetchBlocksRecursively] and of
    [fetchAllPages], over the listing call [list_call] already applied to
    its identifier. Besides the promise's outcome it gives the
    [start_cursor] of every call made, in order. *)
Fixpoint fetchPage {T} (fuel : nat)
    (list_call : option jsstring -> reply (ListResponse T))
    (cursor : option jsstring) (acc : list T)
  : list (option jsstring) * outcome (list T) :=
  match fuel with
  | O => ([], OutOfFuel)
  | S fuel' =>
    match list_call cursor with
    | Failure e => ([cursor], Rejected e)
    | Answer response =>
      let fullBlocks := filterFull (results response) in
      let nextAcc := acc ++ fullBlocks in
      if has_more response && truthy (next_cursor response)
      then
        let rest := fetchPage fuel' list_call (next_cursor response) nextAcc in
        (cursor :: fst rest, snd rest)
      else ([cursor], Resolved nextAcc)
    end
  end.

Definition fetchBlocksRecursively (notion : Notion) (fuel : nat)
    (blockId : jsstring) : outcome (list Block) :=
  snd (fetchPage fuel (blocks_children_list notion blockId) None []).

(** ** BlockRenderer *)

Fixpoint normalizeText (value : jsstring) : jsstring :=
  match value with
  | [] => []
  | c :: rest =>
    match rest with
    | d :: rest' =>
      if (c =? CR)%N && (d =? LF)%N then LF :: normalizeText rest'
      else c :: normalizeText rest
    | [] => [c]
    end
  end.

(** White space and line terminators of ECMAScript: what [trim] strips
    and what [\s] matches. *)
Definition isWhiteSpace (c : N) : bool :=
  ((9 <=? c) && (c <=? 13) || (c =? 32) || (c =? 160) || (c =? 5760)
   || (8192 <=? c) && (c <=? 8202) || (c =? 8232) || (c =? 8233)
   || (c =? 8239) || (c =? 8287) || (c =? 12288) || (c =? 65279))%N.

Fixpoint trimStart (s : jsstring) : jsstring :=
  match s with
  | [] => []
  | c :: rest => if isWhiteSpace c then trimStart rest else s
  end.

Definition trimEnd (s : jsstring) : jsstring := rev (trimStart (rev s)).

Definition trim (s : jsstring) : jsstring := trimEnd (trimStart s).

Fixpoint join (sep : jsstring) (parts : list jsstring) : jsstring :=
  match parts with
  | [] => []
  | p :: rest =>
    match rest with
    | [] => p
    | _ :: _ => p ++ sep ++ join sep rest
    end
  end.

Fixpoint repeat_string (s : jsstring) (count : nat) : jsstring :=
  match count with
  | O => []
  | S count' => s ++ repeat_string s count'
  end.

Definition indent (depth : nat) : jsstring := repeat_string (lit "  ") depth.

Definition fileUrl (f : FileObject) : jsstring :=
  match f with
  | ExternalFile url => url
  | HostedFile url => url
  end.

(** The body of [stringifyBlocks] after the promises of the blocks have
    resolved: [keptLines] is [.map(normalizeText).filter(...)], and
    [joinLines] joins what is kept. *)
Definition keptLines (markdownLines : list jsstring) : list jsstring :=
  List.filter (fun line => 0 <? length (trim line))
    (map normalizeText markdownLines).

Definition joinLines (markdownLines : list jsstring) : jsstring :=
  join (nl ++ nl) (keptLines markdownLines).

(** The dispatch on [block.type], given the rendered children. *)
Definition blockTemplate (block : Block) (depth : nat)
    (nestedMarkdown : jsstring) : jsstring :=
  match data block with
  | Paragraph rich_text =>
    let text := toInlineMarkdown rich_text in
    if 0 <? length text then indent depth ++ text ++ nestedMarkdown else []
  | Heading1 rich_text => indent depth ++ lit "# " ++ toInlineMarkdown rich_text
  | Heading2 rich_text => indent depth ++ lit "## " ++ toInlineMarkdown rich_text
  | Heading3 rich_text => indent depth ++ lit "### " ++ toInlineMarkdown rich_text
  | ToDo rich_text checked =>
    let checked := if checked then lit "x" else lit " " in
    indent depth ++ lit "- [" ++ checked ++ lit "] "
      ++ toInlineMarkdown rich_text ++ nestedMarkdown
  | Toggle rich_text =>
    indent depth ++ lit "- " ++ toInlineMarkdown rich_text ++ nestedMarkdown
  | Quote rich_text =>
    indent depth ++ lit "> " ++ toInlineMarkdown rich_text ++ nestedMarkdown
  | Callout icon rich_text =>
    let icon :=
      match icon with
      | Some (EmojiIcon emoji) => emoji ++ lit " "
      | _ => []
      end in
    indent depth ++ lit "> " ++ icon ++ toInlineMarkdown rich_text
      ++ nestedMarkdown
  | Code language rich_text =>
    let language := default (lit "text") language in
    let body := toInlineMarkdown rich_text in
    indent depth ++ lit "```" ++ language ++ nl ++ body ++ nl
      ++ indent depth ++ lit "```"
  | Divider => indent depth ++ lit "---"
  | EquationBlock expression => indent depth ++ lit "$$" ++ expression ++ lit "$$"
  | Image image caption =>
    let imageUrl := fileUrl image in
    let caption := toInlineMarkdown caption in
    let alt := if 0 <? length caption then caption else lit "image" in
    indent depth ++ lit "![" ++ alt ++ lit "](" ++ imageUrl ++ lit ")"
  | Bookmark url => indent depth ++ lit "[" ++ url ++ lit "](" ++ url ++ lit ")"
  | File file caption =>
    let fileUrl := fileUrl file in
    let caption := toInlineMarkdown caption in
    let label := if 0 <? length caption then caption else lit "file" in
    indent depth ++ lit "[" ++ label ++ lit "](" ++ fileUrl ++ lit ")"
  | Video video => indent depth ++ lit "[video](" ++ fileUrl video ++ lit ")"
  | Audio audio => indent depth ++ lit "[audio](" ++ fileUrl audio ++ lit ")"
  | Pdf pdf _ => indent depth ++ lit "[pdf](" ++ fileUrl pdf ++ lit ")"
  | LinkPreview url => indent depth ++ lit "[" ++ url ++ lit "](" ++ url ++ lit ")"
  | ChildPage title => indent depth ++ lit "## " ++ title
  | ChildDatabase title => indent depth ++ lit "## " ++ title
  | TableOfContents => indent depth ++ lit "[Table of Contents]"
  | BulletedListItem rich_text =>
    indent depth ++ lit "-" ++ lit " " ++ toInlineMarkdown rich_text
      ++ nestedMarkdown
  | NumberedListItem rich_text =>
    indent depth ++ lit "1." ++ lit " " ++ toInlineMarkdown rich_text
      ++ nestedMarkdown
  | Unsupported _ => []
  end.

Section Renderer.
Variable notion : Notion.

Fixpoint stringifyBlock (fuel : nat) (block : Block) (depth : nat)
  : outcome jsstring :=
  match fuel with
  | O => OutOfFuel
  | S fuel' =>
    nested ← (if has_children block
              then fetchBlocksRecursively notion fuel' (block_id block)
              else Resolved []);
    nestedMarkdown ←
      (if 0 <? length nested
       then
         markdownLines ← Promise_all
           (map (fun child => stringifyBlock fuel' child (depth + 1)) nested);
         Resolved (nl ++ joinLines markdownLines)
       else Resolved []);
    Resolved (blockTemplate block depth nestedMarkdown)
  end.

Definition stringifyBlocks (fuel : nat) (blocks : list Block) (depth : nat)
  : outcome jsstring :=
  markdownLines ← Promise_all
    (map (fun block => stringifyBlock fuel block depth) blocks);
  Resolved (joinLines markdownLines).
End Renderer.

(** ** NameAllocator *)

Definition isTitleProperty (property : Property) : bool :=
  match property with TitleProperty _ => true | OtherProperty => false end.

Definition getTitle (page : Page) : jsstring :=
  match List.find isTitleProperty (properties page) with
  | Some (TitleProperty title) =>
    let title := trim (toInlineMarkdown title) in
    if 0 <? length title then title else lit "Untitled-" ++ page_id page
  | _ => lit "Untitled-" ++ page_id page
  end.

(** The character class of the first [replace]: the characters
    less-than, greater-than, colon, double quote, slash, backslash,
    vertical bar, question mark and asterisk, and the code units 0x00 to
    0x1F. *)
Definition isUnsafe (c : N) : bool :=
  ((c =? 60) || (c =? 62) || (c =? 58) || (c =? 34) || (c =? 47) || (c =? 92)
   || (c =? 124) || (c =? 63) || (c =? 42) || (c <=? 31))%N.

(** [.replace(/[...]/g, "-")] for a character class. *)
Definition replaceClass (class : N -> bool) (by_ : N) (s : jsstring) : jsstring :=
  map (fun c => if class c then by_ else c) s.

(** [.replace(/\s+/g, " ")]: the scan replaces every maximal run of
    white space; [inRun] says that the previous character belongs to a
    run already replaced. *)
Fixpoint replaceRuns (inRun : bool) (s : jsstring) : jsstring :=
  match s with
  | [] => []
  | c :: rest =>
    if isWhiteSpace c
    then (if inRun then replaceRuns true rest else SP :: replaceRuns true rest)
    else c :: replaceRuns false rest
  end.

Definition sanitizeFileName (name : jsstring) : jsstring :=
  take 180 (trim (replaceRuns false (replaceClass isUnsafe HYPHEN name))).

(** [`${index}`] for a non-negative integer. *)
Definition numberToString (index : nat) : jsstring :=
  lit (NilEmpty.string_of_uint (Nat.to_uint index)).

Definition ensureUniqueFileName (desiredName : jsstring)
    (existing : gset jsstring) : outcome (jsstring * gset jsstring) :=
  let baseName := if 0 <? length desiredName then desiredName else lit "Untitled" in
  let candidate := baseName ++ lit ".md" in
  if bool_decide (candidate ∈ existing)
  then
    let match_ :=
      List.find
        (fun index =>
           let nextCandidate :=
             baseName ++ lit " (" ++ numberToString index ++ lit ").md" in
           negb (bool_decide (nextCandidate ∈ existing)))
        (seq 2 10000) in
    (* [!match] holds for [undefined] and for 0 *)
    match match_ with
    | None | Some O =>
      Rejected (lit "Could not allocate unique filename for " ++ baseName)
    | Some index =>
      let unique := baseName ++ lit " (" ++ numberToString index ++ lit ").md" in
      Resolved (unique, {[unique]} ∪ existing)
    end
  else Resolved (candidate, {[candidate]} ∪ existing).

(** A batch of desired names allocated in order against one set. *)
Fixpoint allocateAll (desiredNames : list jsstring) (usedNames : gset jsstring)
  : outcome (list jsstring * gset jsstring) :=
  match desiredNames with
  | [] => Resolved ([], usedNames)
  | desiredName :: rest =>
    r ← ensureUniqueFileName desiredName usedNames;
    rs ← allocateAll rest r.2;
    Resolved (r.1 :: rs.1, rs.2)
  end.

(** ** ExportCoordinator *)

(** [fetchAllPages] for the database [notionDatabaseId], with the
    [data_source_id] and [start_cursor] of every query made. *)
Definition fetchAllPages (notion : Notion) (fuel : nat)
    (notionDatabaseId : jsstring)
  : list (jsstring * option jsstring) * outcome (list Page) :=
  match databases_retrieve notion notionDatabaseId with
  | Failure e => ([], Rejected e)
  | Answer database =>
    match data_sources database with
    | None =>
      ([], Rejected (lit "Database " ++ notionDatabaseId
                       ++ lit " has no data sources to query."))
    | Some sources =>
      if length sources =? 0
      then ([], Rejected (lit "Database " ++ notionDatabaseId
                            ++ lit " has no data sources to query."))
      else
        match head sources with
        | None =>
          ([], Rejected (lit "Database " ++ notionDatabaseId
                           ++ lit " has no queryable primary data source."))
        | Some firstDataSource =>
          let dataSourceId := data_source_id firstDataSource in
          let fetched :=
            fetchPage fuel (dataSources_query notion dataSourceId) None [] in
          (map (fun cursor => (dataSourceId, cursor)) fetched.1, fetched.2)
        end
    end
  end.

Definition formatDate (createdTime : jsstring) : jsstring := take 10 createdTime.

(** The [exportJobs] of [run]: every page with its file name, the names
    allocated in page order against [usedNames]. *)
Fixpoint exportJobs (pages : list Page) (usedNames : gset jsstring)
  : outcome (list (Page * jsstring) * gset jsstring) :=
  match pages with
  | [] => Resolved ([], usedNames)
  | page :: rest =>
    r ← ensureUniqueFileName (sanitizeFileName (getTitle page)) usedNames;
    rs ← exportJobs rest r.2;
    Resolved ((page, r.1) :: rs.1, rs.2)
  end.

(** The host of the script: the directory it lies in, [join] of
    [node:path], and [mkdir] and [writeFile] of [node:fs/promises]
    ([mkdir] is called with [recursive: true], [writeFile] with the
    encoding [utf8]). As for the Notion client, the answer to a call is a
    function of its arguments. *)
Record Host := {
  scriptDir : jsstring;
  path_join : jsstring -> jsstring -> jsstring;
  mkdir : jsstring -> reply unit;
  writeFile : jsstring -> jsstring -> reply unit
}.

(** One export job, the callback of [exportJobs.map] in [run]: the path
    and the content of the file it has written. *)
Definition exportJob (host : Host) (notion : Notion) (fuel : nat)
    (outputDir : jsstring) (job : Page * jsstring)
  : outcome (jsstring * jsstring) :=
  blocks ← fetchBlocksRecursively notion fuel (page_id job.1);
  content ← stringifyBlocks notion fuel blocks 0;
  let frontmatter :=
    lit "---" ++ nl ++ lit "Written: " ++ formatDate (created_time job.1)
      ++ nl ++ lit "---" in
  let markdown := frontmatter ++ nl ++ nl ++ content ++ nl in
  let targetPath := path_join host outputDir job.2 in
  match writeFile host targetPath markdown with
  | Failure e => Rejected e
  | Answer _ => Resolved (targetPath, markdown)
  end.

(** [run]: the files written, in page order. The final log line is left
    out. *)
Definition run (host : Host) (notion : Notion) (fuel : nat)
    (notionDatabaseId : jsstring)
  : outcome (list (jsstring * jsstring)) :=
  let outputDir := path_join host (scriptDir host) (lit "exports") in
  match mkdir host outputDir with
  | Failure e => Rejected e
  | Answer _ =>
    pages ← (fetchAllPages notion fuel notionDatabaseId).2;
    jobs ← exportJobs pages ∅;
    Promise_all (map (exportJob host notion fuel outputDir) jobs.1)
  end.

(** The output directory of [run], and a host on which the directory can
    be made and every file in it written. *)
Definition outputDirOf (host : Host) : jsstring :=
  path_join host (scriptDir host) (lit "exports").

Definition accepts (host : Host) : Prop :=
  mkdir host (outputDirOf host) = Answer tt
  /\ forall fileName content,
      writeFile host (path_join host (outputDirOf host) fileName) content
      = Answer tt.

(** A host that makes every directory and writes every file, and one
    on which no file can be written. *)
Definition localHost : Host :=
  {| scriptDir := lit "/srv/notion";
     path_join := fun a b => a ++ lit "/" ++ b;
     mkdir := fun _ => Answer tt;
     writeFile := fun _ _ => Answer tt |}.

Definition readOnlyHost : Host :=
  {| scriptDir := lit "/srv/notion";
     path_join := fun a b => a ++ lit "/" ++ b;
     mkdir := fun _ => Answer tt;
     writeFile := fun _ _ => Failure (lit "EACCES") |}.

(** ** Example workspaces *)

(** A listing answered in one page, every entry fully resolved. *)
Definition singlePage {T} (records : list T) : reply (ListResponse T) :=
  Answer {| results := map Full records; has_more := false; next_cursor := None |}.

(** A workspace with one database holding [pages] in a single data
    source, the children of every identifier given by [children]. *)
Definition workspace (pages : list Page) (children : jsstring -> list Block)
  : Notion :=
  {| blocks_children_list := fun blockId _ => singlePage (children blockId);
     databases_retrieve := fun _ =>
       Answer {| data_sources := Some [ {| data_source_id := lit "ds" |} ] |};
     dataSources_query := fun _ _ => singlePage pages |}.

Definition boldOnly : Annotations :=
  {| bold := true; italic := false; strikethrough := false;
     underline := false; code := false |}.

Definition textBlock (id : jsstring) (children : bool) (t : jsstring) : Block :=
  {| block_id := id; has_children := children;
     data := Paragraph [plainRun noStyle t None] |}.

(** An empty paragraph with one child paragraph. *)
Definition emptyParent : Block :=
  {| block_id := lit "parent"; has_children := true; data := Paragraph [] |}.

Definition emptyParentWorkspace : Notion :=
  workspace []
    (fun blockId =>
       if bool_decide (blockId = lit "parent")
       then [textBlock (lit "child") false (lit "child")] else []).

(** The page of the end-to-end scenario and its two blocks. *)
Definition tripPage : Page :=
  {| page_id := lit "trip";
     created_time := lit "2024-03-01T10:00:00.000Z";
     properties := [OtherProperty; TitleProperty [plainRun noStyle (lit "Trip") None]] |}.

Definition packedBags (children : bool) : Block :=
  {| block_id := lit "packed"; has_children := children;
     data := Paragraph [plainRun boldOnly (lit "Packed bags") None] |}.

Definition buyTickets : Block :=
  {| block_id := lit "tickets"; has_children := false;
     data := ToDo [plainRun noStyle (lit "Buy tickets") None] false |}.

(** The to-do block is a child of the paragraph. *)
Definition tripNested : Notion :=
  workspace [tripPage]
    (fun blockId =>
       if bool_decide (blockId = lit "trip") then [packedBags true]
       else if bool_decide (blockId = lit "packed") then [buyTickets]
       else []).

(** The to-do block follows the paragraph at the top level of the page. *)
Definition tripSiblings : Notion :=
  workspace [tripPage]
    (fun blockId =>
       if bool_decide (blockId = lit "trip") then [packedBags false; buyTickets]
       else []).

Definition pdfBlock (caption : list RichTextItem) : Block :=
  {| block_id := lit "pdf"; has_children := false;
     data := Pdf (ExternalFile (lit "https://example.org/a.pdf")) caption |}.

(** ** Sources of pages *)

(** The test of [fetchPage] for asking for another page. *)
Definition continues {T} (response : ListResponse T) : bool :=
  has_more response && truthy (next_cursor response).

(** [Served list_call cursor responses]: asked from [cursor] on, and
    then with the cursor of each answer that has more to give, the
    listing answers with [responses], the last of which asks for nothing
    more. *)
Inductive Served {T} (list_call : option jsstring -> reply (ListResponse T))
  : option jsstring -> list (ListResponse T) -> Prop :=
| served_last cursor response :
    list_call cursor = Answer response ->
    continues response = false ->
    Served list_call cursor [response]
| served_more cursor response responses :
    list_call cursor = Answer response ->
    continues response = true ->
    Served list_call (next_cursor response) responses ->
    Served list_call cursor (response :: responses).

(** A synthetic source that serves the given pages of entries in order:
    page [i] is asked for with [pageCursor i]. *)
Definition pageCursor (i : nat) : option jsstring :=
  match i with
  | O => None
  | S _ => Some (replicate i 99%N)
  end.

Definition cursorIndex (cursor : option jsstring) : nat :=
  match cursor with
  | None => 0
  | Some c => length c
  end.

Fixpoint scriptedFrom {T} (total i : nat) (pages : list (list (Entry T)))
  : list (ListResponse T) :=
  match pages with
  | [] => []
  | entries :: rest =>
    {| results := entries;
       has_more := S i <? total;
       next_cursor := if S i <? total then pageCursor (S i) else None |}
      :: scriptedFrom total (S i) rest
  end.

Definition scripted {T} (pages : list (list (Entry T)))
  : option jsstring -> reply (ListResponse T) :=
  fun cursor =>
    match scriptedFrom (length pages) 0 pages !! cursorIndex cursor with
    | Some response => Answer response
    | None => Failure (lit "no such page")
    end.

(** A database with two data sources, one page in each. *)
Definition titledPage (id title : jsstring) : Page :=
  {| page_id := id;
     created_time := lit "2024-03-01T10:00:00.000Z";
     properties := [TitleProperty [plainRun noStyle title None]] |}.

Definition twoSources : Notion :=
  {| blocks_children_list := fun _ _ => singlePage [];
     databases_retrieve := fun _ =>
       Answer {| data_sources :=
                   Some [ {| data_source_id := lit "first" |};
                          {| data_source_id := lit "second" |} ] |};
     dataSources_query := fun dataSourceId _ =>
       if bool_decide (dataSourceId = lit "first")
       then singlePage [titledPage (lit "a") (lit "In the first")]
       else singlePage [titledPage (lit "b") (lit "In the second")] |}.

(** The artifact the scenario is expected to give, and the one it gives
    when the to-do block is a child of the paragraph. *)
Definition tripExpected : jsstring :=
  lit "---" ++ nl ++ lit "Written: 2024-03-01" ++ nl ++ lit "---" ++ nl ++ nl
    ++ lit "**Packed bags**" ++ nl ++ nl ++ lit "- [ ] Buy tickets" ++ nl.

Definition tripIndented : jsstring :=
  lit "---" ++ nl ++ lit "Written: 2024-03-01" ++ nl ++ lit "---" ++ nl ++ nl
    ++ lit "**Packed bags**" ++ nl ++ lit "  - [ ] Buy tickets" ++ nl.

(** ** Sanitizing, in the words of the specification *)

(** The nine characters listed as unsafe for file names (the double
    quote is code unit 34). *)
Definition forbiddenCharacters : jsstring := lit "<>:" ++ [34%N] ++ lit "/\|?*".

(** The control characters: the C0 controls 0x00 to 0x1F, DEL 0x7F and
    the C1 controls 0x80 to 0x9F. *)
Definition isControlCharacter (c : N) : bool :=
  ((c <? 32) || (127 <=? c) && (c <=? 159))%N.

(** The forbidden characters: the listed ones and the control
    characters. *)
Definition isForbidden (c : N) : bool :=
  bool_decide (c ∈ forbiddenCharacters) || isControlCharacter c.

(** The characters that are replaced: the listed ones and, of the
    control characters, those below 0x20. *)
Definition isReplaced (c : N) : bool :=
  bool_decide (c ∈ forbiddenCharacters) || (c <? 32)%N.

Definition replaceForbidden (title : jsstring) : jsstring :=
  map (fun c => if isReplaced c then HYPHEN else c) title.

(** A white space character followed by another one is dropped; the
    last one of a run becomes a single space. *)
Fixpoint collapseWhitespace (s : jsstring) : jsstring :=
  match s with
  | [] => []
  | c :: rest =>
    if isWhiteSpace c
    then
      match rest with
      | d :: _ =>
        if isWhiteSpace d then collapseWhitespace rest
        else SP :: collapseWhitespace rest
      | [] => [SP]
      end
    else c :: collapseWhitespace rest
  end.

(** ** Indentation *)

(** The number of spaces a string starts with; no line feed is passed,
    so this is the indentation of its first line. *)
Fixpoint leadingSpaces (s : jsstring) : nat :=
  match s with
  | [] => 0
  | c :: rest => if (c =? SP)%N then S (leadingSpaces rest) else 0
  end.

(** The spaces a block's own text adds to its indentation: only the
    text of a paragraph follows the indentation directly. *)
Definition ownLeadingSpaces (block : Block) : nat :=
  match data block with
  | Paragraph rich_text => leadingSpaces (toInlineMarkdown rich_text)
  | _ => 0
  end.

(** ** Names of a batch *)

(** The bound of the probe, the stem used for a desired name, and the
    two forms of an allocated name. *)
Definition maxProbes : nat := 10000.

Definition baseNameOf (desiredName : jsstring) : jsstring :=
  if 0 <? length desiredName then desiredName else lit "Untitled".

Definition plainName (desiredName : jsstring) : jsstring :=
  baseNameOf desiredName ++ lit ".md".

Definition suffixedName (desiredName : jsstring) (index : nat) : jsstring :=
  baseNameOf desiredName ++ lit " (" ++ numberToString index ++ lit ").md".

(** The names of a batch, without the set. *)
Definition allocatedNames (r : outcome (list jsstring * gset jsstring))
  : outcome (list jsstring) :=
  p ← r; Resolved p.1.

(** ** Kinds of blocks and finite trees *)

(** The kinds whose template ends with the rendered children. *)
Definition appendsChildren (d : BlockData) : bool :=
  match d with
  | Paragraph _ | ToDo _ _ | Toggle _ | Quote _ | Callout _ _
  | BulletedListItem _ | NumberedListItem _ => true
  | _ => false
  end.

(** [FiniteTree notion h block]: below [block] the API serves a tree of
    height less than [h], every listing of children ending after at most
    [h - 1] pages. *)
Inductive FiniteTree (notion : Notion) : nat -> Block -> Prop :=
| finite_leaf h block :
    has_children block = false ->
    FiniteTree notion (S h) block
| finite_node h block responses :
    has_children block = true ->
    Served (blocks_children_list notion (block_id block)) None responses ->
    length responses <= h ->
    (forall child,
        child ∈ concat (map (fun r => filterFull (results r)) responses) ->
        FiniteTree notion h child) ->
    FiniteTree notion (S h) block.

(** A heading with one child paragraph. *)
Definition headingBlock : Block :=
  {| block_id := lit "heading"; has_children := true;
     data := Heading1 [plainRun noStyle (lit "Title") None] |}.

Definition headingWorkspace : Notion :=
  workspace []
    (fun blockId =>
       if bool_decide (blockId = lit "heading")
       then [textBlock (lit "below") false (lit "below")] else []).

(** A client whose listing of children always fails. *)
Definition offline : Notion :=
  {| blocks_children_list := fun _ _ => Failure (lit "offline");
     databases_retrieve := fun _ => Failure (lit "offline");
     dataSources_query := fun _ _ => Failure (lit "offline") |}.

(** A listing that always has more to give. *)
Definition endless {T} : option jsstring -> reply (ListResponse T) :=
  fun _ => Answer {| results := []; has_more := true;
                     next_cursor := Some (lit "again") |}.

(** A listing that fails on its second page. *)
Definition failsOnSecond {T} (first : list (Entry T))
  : option jsstring -> reply (ListResponse T) :=
  fun cursor =>
    match cursor with
    | None => Answer {| results := first; has_more := true;
                        next_cursor := Some (lit "second") |}
    | Some _ => Failure (lit "rate limited")
    end.

(** Every name the allocator can give to a desired name. *)
Definition allNames (desiredName : jsstring) : gset jsstring :=
  list_to_set (plainName desiredName
                 :: map (suffixedName desiredName) (seq 2 maxProbes)).

(** The message of [fetchAllPages] for a database without data sources,
    and the one of [ensureUniqueFileName] when the probe is exhausted. *)
Definition noDataSourcesMessage (notionDatabaseId : jsstring) : jsstring :=
  lit "Database " ++ notionDatabaseId ++ lit " has no data sources to query.".

Definition exhaustedMessage (baseName : jsstring) : jsstring :=
  lit "Could not allocate unique filename for " ++ baseName.

(** A workspace in which the children of the second of two pages cannot
    be listed. *)
Definition secondPageFails : Notion :=
  {| blocks_children_list := fun blockId _ =>
       if bool_decide (blockId = lit "b") then Failure (lit "offline")
       else singlePage [];
     databases_retrieve := fun _ =>
       Answer {| data_sources := Some [ {| data_source_id := lit "ds" |} ] |};
     dataSources_query := fun _ _ =>
       singlePage [titledPage (lit "a") (lit "One");
                   titledPage (lit "b") (lit "Two")] |}.

(** ** Inline text *)

Lemma toInlineMarkdown_single item : toInlineMarkdown [item] = inlineItem item.
Proof. unfold toInlineMarkdown. simpl. apply app_nil_r. Qed.

Lemma toInlineMarkdown_app r1 r2 :
  toInlineMarkdown (r1 ++ r2) = toInlineMarkdown r1 ++ toInlineMarkdown r2.
Proof. unfold toInlineMarkdown. by rewrite map_app, concat_app. Qed.

(** C1. A run that is not an expression is rendered as its text between
    the opening markers, outermost first (link, underline, strikethrough,
    italic, bold, inline code), and the closing markers in the mirrored
    order, each pair present exactly when its annotation (for the link: a
    non-empty target) is set. With bold, italic and a link target alone
    the result is [[***text***](url)]. *)
Theorem C1_style_nesting_order :
  (forall item, isEquation item = false ->
     let a := annotations item in
     toInlineMarkdown [item] =
       (marker (truthy (href item)) (lit "[")
          ++ marker (underline a) (lit "<u>")
          ++ marker (strikethrough a) (lit "~~")
          ++ marker (italic a) (lit "*")
          ++ marker (bold a) (lit "**")
          ++ marker (code a) (lit "`"))
       ++ plain_text item
       ++ (marker (code a) (lit "`")
          ++ marker (bold a) (lit "**")
          ++ marker (italic a) (lit "*")
          ++ marker (strikethrough a) (lit "~~")
          ++ marker (underline a) (lit "</u>")
          ++ marker (truthy (href item))
               (lit "](" ++ default [] (href item) ++ lit ")")))
  /\ (forall t url, truthy (Some url) = true ->
        toInlineMarkdown
          [plainRun {| bold := true; italic := true; strikethrough := false;
                       underline := false; code := false |} t (Some url)]
        = lit "[***" ++ t ++ lit "***](" ++ url ++ lit ")").
Proof.
  split.
  - intros [t ty [b i s u c] h] Heq; rewrite toInlineMarkdown_single.
    unfold inlineItem, isEquation in *; simpl in *.
    destruct ty; try discriminate;
      destruct h as [[|h0 h]|], b, i, s, u, c; simpl;
      rewrite <- ?app_assoc; simpl; rewrite ?app_nil_r;
      repeat (try reflexivity; f_equal; rewrite <- ?app_assoc; simpl).
  - intros t [|c url] Hurl; [discriminate|].
    rewrite toInlineMarkdown_single. unfold inlineItem; simpl.
    rewrite <- ?app_assoc. reflexivity.
Qed.

Lemma C1_style_nesting_order_witness :
  toInlineMarkdown
    [plainRun {| bold := true; italic := true; strikethrough := false;
                 underline := false; code := false |}
       (lit "text") (Some (lit "url"))]
  = lit "[***text***](url)".
Proof.
  exact (proj2 C1_style_nesting_order (lit "text") (lit "url") eq_refl).
Defined.

(** C6 fails as stated: a bold run with an empty payload and no link is
    rendered as the empty bold wrapper. *)
Lemma C6_empty_bold_wrapper :
  toInlineMarkdown
    [plainRun boldOnly [] None] = lit "****"
  /\ ~ (forall item, plain_text item = [] -> href item = None ->
          toInlineMarkdown [item] = []).
Proof.
  split; [reflexivity|].
  intros H.
  specialize (H (plainRun boldOnly [] None) eq_refl eq_refl).
  discriminate H.
Qed.

(** C6, amended. For a run that is not an expression, with an empty
    payload and no link target, the result is the empty string exactly
    when none of the five style annotations is set. *)
Theorem C6_empty_run_unstyled item :
  isEquation item = false ->
  plain_text item = [] ->
  truthy (href item) = false ->
  toInlineMarkdown [item] = [] <-> annotations item = noStyle.
Proof.
  destruct item as [t ty [b i s u c] h]; unfold isEquation; simpl.
  intros Hty -> Hh. rewrite toInlineMarkdown_single. unfold inlineItem; simpl.
  assert (Hl : match h with Some (c0 :: h0) => False | _ => True end)
    by (destruct h as [[|? ?]|]; [done|discriminate|done]).
  destruct ty; try discriminate;
    destruct h as [[|? ?]|]; try contradiction;
    destruct b, i, s, u, c; simpl; split; intros E;
    solve [reflexivity | discriminate E].
Qed.

Lemma C6_empty_run_unstyled_witness :
  toInlineMarkdown [plainRun noStyle [] None] = [] <->
  annotations (plainRun noStyle [] None) = noStyle.
Proof.
  apply (C6_empty_run_unstyled (plainRun noStyle [] None));
    [reflexivity | reflexivity | reflexivity].
Defined.

(** ** Rendering one block *)

Lemma stringifyBlock_S notion fuel block depth :
  stringifyBlock notion (S fuel) block depth =
    (nested ← (if has_children block
               then fetchBlocksRecursively notion fuel (block_id block)
               else Resolved []);
     nestedMarkdown ←
       (if 0 <? length nested
        then s ← stringifyBlocks notion fuel nested (depth + 1);
             Resolved (nl ++ s)
        else Resolved []);
     Resolved (blockTemplate block depth nestedMarkdown)).
Proof.
  simpl. unfold stringifyBlocks. unbind.
  destruct (if has_children block then _ else _) as [nested| |]; try reflexivity.
  destruct (0 <? length nested); try reflexivity.
  destruct (Promise_all _); reflexivity.
Qed.

(** What is known of a block whose rendering resolved: the children that
    were fetched, their renderings one level deeper, and the template
    filled with them. *)
Lemma stringifyBlock_resolved notion fuel block depth s :
  stringifyBlock notion fuel block depth = Resolved s ->
  exists fuel' nested nestedMarkdown,
    fuel = S fuel'
    /\ (if has_children block
        then fetchBlocksRecursively notion fuel' (block_id block)
        else Resolved []) = Resolved nested
    /\ (if 0 <? length nested
        then exists markdownLines,
            Promise_all
              (map (fun child => stringifyBlock notion fuel' child (depth + 1))
                 nested) = Resolved markdownLines
            /\ nestedMarkdown = nl ++ joinLines markdownLines
        else nestedMarkdown = [])
    /\ s = blockTemplate block depth nestedMarkdown.
Proof.
  destruct fuel as [|fuel']; [discriminate|]. simpl. unbind.
  destruct (if has_children block then _ else _) as [nested| |] eqn:Hn;
    try discriminate.
  destruct (0 <? length nested) eqn:Hlen.
  - destruct (Promise_all _) as [lines| |] eqn:Hall; try discriminate.
    intros [= <-]. exists fuel', nested, (nl ++ joinLines lines).
    rewrite Hlen. eauto 10.
  - intros [= <-]. exists fuel', nested, []. rewrite Hlen. eauto 10.
Qed.

Lemma stringifyBlock_leaf notion fuel block depth :
  has_children block = false ->
  stringifyBlock notion (S fuel) block depth
  = Resolved (blockTemplate block depth []).
Proof. intros H. simpl. rewrite H. reflexivity. Qed.

(** C7 fails as stated for document blocks: the label of a pdf block is
    the literal [pdf], whether or not it has a caption. *)
Lemma C7_pdf_label_is_literal :
  stringifyBlock (workspace [] (fun _ => [])) 1 (pdfBlock []) 0
    = Resolved (lit "[pdf](https://example.org/a.pdf)")
  /\ stringifyBlock (workspace [] (fun _ => [])) 1
       (pdfBlock [plainRun noStyle (lit "Report") None]) 0
    = Resolved (lit "[pdf](https://example.org/a.pdf)")
  /\ lit "[pdf](https://example.org/a.pdf)"
       <> lit "[file](https://example.org/a.pdf)"
  /\ lit "[pdf](https://example.org/a.pdf)"
       <> lit "[Report](https://example.org/a.pdf)".
Proof. repeat split; solve [reflexivity | discriminate]. Qed.

(** C7, amended. A file block is rendered as a link to its URL
    (external or hosted) labelled with its composed caption, or with
    [file] when the caption is empty; a pdf block is rendered as a link to
    its URL labelled [pdf]. A block without children is rendered with one
    unit of fuel. *)
Theorem C7_file_and_pdf_links notion block depth :
  (forall fuel s,
     stringifyBlock notion fuel block depth = Resolved s ->
     match data block with
     | File file caption =>
       s = indent depth ++ lit "["
             ++ (if 0 <? length (toInlineMarkdown caption)
                 then toInlineMarkdown caption else lit "file")
             ++ lit "](" ++ fileUrl file ++ lit ")"
     | Pdf pdf _ => s = indent depth ++ lit "[pdf](" ++ fileUrl pdf ++ lit ")"
     | _ => True
     end)
  /\ (has_children block = false ->
      forall fuel, exists s,
        stringifyBlock notion (S fuel) block depth = Resolved s)
  /\ (forall url, fileUrl (ExternalFile url) = url /\ fileUrl (HostedFile url) = url).
Proof.
  split; [|split].
  - intros fuel s H.
    destruct (stringifyBlock_resolved _ _ _ _ _ H) as (f & n & nm & _ & _ & _ & ->).
    unfold blockTemplate. destruct (data block); done.
  - intros H fuel. eexists. by apply stringifyBlock_leaf.
  - done.
Qed.

Lemma C7_file_and_pdf_links_witness :
  exists s,
    stringifyBlock (workspace [] (fun _ => [])) 1 (pdfBlock []) 0 = Resolved s.
Proof.
  exact (proj1 (proj2 (C7_file_and_pdf_links (workspace [] (fun _ => []))
                         (pdfBlock []) 0)) eq_refl 0).
Defined.

(** C3 fails as stated: a paragraph whose inline text is empty is
    omitted although it has a child that is rendered to a line of its
    own. *)
Lemma C3_empty_paragraph_drops_children :
  toInlineMarkdown [] = []
  /\ has_children emptyParent = true
  /\ fetchBlocksRecursively emptyParentWorkspace 1 (block_id emptyParent)
     = Resolved [textBlock (lit "child") false (lit "child")]
  /\ stringifyBlocks emptyParentWorkspace 1
       [textBlock (lit "child") false (lit "child")] 1
     = Resolved (lit "  child")
  /\ stringifyBlock emptyParentWorkspace 2 emptyParent 0 = Resolved []
  /\ lit "  child" <> [].
Proof. repeat split; try (vm_compute; reflexivity). discriminate. Qed.

(** ** Pagination *)

Lemma fetchPage_S {T} fuel (list_call : option jsstring -> reply (ListResponse T))
    cursor acc response :
  list_call cursor = Answer response ->
  fetchPage (S fuel) list_call cursor acc =
    if continues response
    then (cursor :: (fetchPage fuel list_call (next_cursor response)
                       (acc ++ filterFull (results response))).1,
          (fetchPage fuel list_call (next_cursor response)
             (acc ++ filterFull (results response))).2)
    else ([cursor], Resolved (acc ++ filterFull (results response))).
Proof. intros H. simpl. rewrite H. reflexivity. Qed.

Lemma fetchPage_served {T} (list_call : option jsstring -> reply (ListResponse T))
    cursor responses :
  Served list_call cursor responses ->
  forall fuel acc, length responses <= fuel ->
    fetchPage fuel list_call cursor acc =
      (cursor :: map next_cursor (removelast responses),
       Resolved (acc ++ concat (map (fun r => filterFull (results r)) responses))).
Proof.
  induction 1 as [c r Hc Hstop | c r rs Hc Hgo Hrs IH]; intros fuel acc Hfuel.
  - destruct fuel as [|fuel]; [simpl in Hfuel; lia|].
    rewrite (fetchPage_S _ _ _ _ _ Hc), Hstop. simpl. by rewrite app_nil_r.
  - destruct fuel as [|fuel]; [simpl in Hfuel; lia|].
    rewrite (fetchPage_S _ _ _ _ _ Hc), Hgo.
    rewrite IH by (simpl in Hfuel; lia). simpl.
    destruct rs as [|r' rs]; [inversion Hrs|].
    by rewrite <- app_assoc.
Qed.

Lemma scriptedFrom_app {T} total i (a b : list (list (Entry T))) :
  scriptedFrom total i (a ++ b)
  = scriptedFrom total i a ++ scriptedFrom total (i + length a) b.
Proof.
  revert i; induction a as [|e a IH]; intros i; simpl.
  - by rewrite Nat.add_0_r.
  - rewrite IH. do 3 f_equal. lia.
Qed.

Lemma scriptedFrom_length {T} total i (a : list (list (Entry T))) :
  length (scriptedFrom total i a) = length a.
Proof. revert i; induction a as [|e a IH]; intros i; simpl; [done|]. by rewrite IH. Qed.

Lemma cursorIndex_pageCursor i : cursorIndex (pageCursor i) = i.
Proof. destruct i; simpl; [done|]. by rewrite length_replicate. Qed.

Lemma scriptedFrom_items {T} total i (pages : list (list (Entry T))) :
  concat (map (fun r => filterFull (results r)) (scriptedFrom total i pages))
  = concat (map filterFull pages).
Proof. revert i; induction pages as [|e a IH]; intros i; simpl; [done|]. by rewrite IH. Qed.

Lemma scripted_served {T} (pages pre suf : list (list (Entry T))) :
  pages = pre ++ suf -> suf <> [] ->
  Served (scripted pages) (pageCursor (length pre))
    (scriptedFrom (length pages) (length pre) suf).
Proof.
  revert pre; induction suf as [|e suf IH]; intros pre Hp Hne; [done|].
  assert (Hcall : scripted pages (pageCursor (length pre)) =
                  Answer {| results := e;
                            has_more := S (length pre) <? length pages;
                            next_cursor :=
                              if S (length pre) <? length pages
                              then pageCursor (S (length pre)) else None |}).
  { unfold scripted. rewrite cursorIndex_pageCursor.
    rewrite Hp at 2. rewrite scriptedFrom_app. simpl.
    rewrite lookup_app_r by (rewrite scriptedFrom_length; lia).
    rewrite scriptedFrom_length, Nat.sub_diag. simpl.
    rewrite ?Nat.add_0_r. reflexivity. }
  simpl. destruct suf as [|e' suf].
  - apply served_last; [exact Hcall|].
    unfold continues; simpl.
    replace (S (length pre) <? length pages) with false; [done|].
    symmetry; apply Nat.ltb_ge. rewrite Hp, length_app. simpl. lia.
  - assert (Hlt : (S (length pre) <? length pages) = true).
    { apply Nat.ltb_lt. rewrite Hp, length_app. simpl. lia. }
    apply served_more; [exact Hcall| |].
    + unfold continues; simpl. by rewrite Hlt.
    + simpl. rewrite Hlt.
      specialize (IH (pre ++ [e])). rewrite length_app in IH; simpl in IH.
      replace (length pre + 1) with (S (length pre)) in IH by lia.
      apply IH; [by rewrite <- app_assoc | done].
Qed.

(** C4. Along the chain of cursors the collector asks once for every
    response, in order, and resolves to the fully resolved entries of all
    of them concatenated in that order; this covers every sequence of
    pages a source serves, the single page and the page without entries
    included. After a response it asks again exactly when [has_more] is
    set and the cursor is a non-empty string; with [has_more] set and no
    cursor it resolves to what was accumulated. *)
Theorem C4_collector_complete {T} :
  (forall (list_call : option jsstring -> reply (ListResponse T)) responses fuel,
     Served list_call None responses ->
     length responses <= fuel ->
     fetchPage fuel list_call None [] =
       (None :: map next_cursor (removelast responses),
        Resolved (concat (map (fun r => filterFull (results r)) responses))))
  /\ (forall (pages : list (list (Entry T))) fuel,
        pages <> [] -> length pages <= fuel ->
        (fetchPage fuel (scripted pages) None []).2
          = Resolved (concat (map filterFull pages))
        /\ length (fetchPage fuel (scripted pages) None []).1 = length pages)
  /\ (forall (list_call : option jsstring -> reply (ListResponse T))
        cursor acc response fuel,
        list_call cursor = Answer response ->
        (1 < length (fetchPage (S (S fuel)) list_call cursor acc).1
         <-> has_more response = true /\ truthy (next_cursor response) = true)
        /\ (has_more response = true -> next_cursor response = None ->
            fetchPage (S fuel) list_call cursor acc
            = ([cursor], Resolved (acc ++ filterFull (results response)))))
  /\ (forall notion blockId responses fuel,
        Served (blocks_children_list notion blockId) None responses ->
        length responses <= fuel ->
        fetchBlocksRecursively notion fuel blockId
        = Resolved (concat (map (fun r => filterFull (results r)) responses))).
Proof.
  split; [|split; [|split]]; cycle 3.
  { intros notion blockId responses fuel Hs Hf. unfold fetchBlocksRecursively.
    by rewrite (fetchPage_served _ _ _ Hs fuel [] Hf). }
  - intros list_call responses fuel Hs Hf.
    by rewrite (fetchPage_served _ _ _ Hs fuel [] Hf).
  - intros pages fuel Hne Hf.
    pose proof (scripted_served pages [] pages eq_refl Hne) as Hs. simpl in Hs.
    rewrite (fetchPage_served _ _ _ Hs fuel []) by (by rewrite scriptedFrom_length).
    simpl. rewrite scriptedFrom_items. split; [done|].
    rewrite length_map.
    assert (Hl : forall A (l : list A), l <> [] -> S (length (removelast l)) = length l).
    { intros A l Hl. destruct (exists_last Hl) as (l' & a & ->).
      rewrite removelast_last, length_app. simpl. lia. }
    rewrite Hl, scriptedFrom_length; [done|].
    destruct pages; [done|]. simpl. discriminate.
  - intros list_call cursor acc response fuel Hc. split.
    + rewrite (fetchPage_S _ _ _ _ _ Hc). unfold continues.
      destruct (has_more response), (truthy (next_cursor response)) eqn:Ht;
        simpl; try (split; [lia | intros []; discriminate]).
      split; [done|]. intros _.
      destruct (list_call (next_cursor response)) as [r'|e];
        [destruct (has_more r' && truthy (next_cursor r'))|]; simpl; lia.
    + intros Hm Hn. rewrite (fetchPage_S _ _ _ _ _ Hc). unfold continues.
      by rewrite Hm, Hn.
Qed.

Lemma C4_collector_complete_witness :
  (fetchPage 3 (scripted [[Full 1; Partial (lit "x"); Full 2]; []; [Full 3]])
     None []).2 = Resolved [1; 2; 3]
  /\ length (fetchPage 3
               (scripted [[Full 1; Partial (lit "x"); Full 2]; []; [Full 3]])
               None []).1 = 3.
Proof.
  apply (proj1 (proj2 (@C4_collector_complete nat))
           [[Full 1; Partial (lit "x"); Full 2]; []; [Full 3]] 3);
    [discriminate | simpl; lia].
Defined.

(** ** Independence from what is not asked for *)

Lemma fetchPage_ext {T} fuel (call call' : option jsstring -> reply (ListResponse T))
    cursor acc :
  (forall c, call' c = call c) ->
  fetchPage fuel call' cursor acc = fetchPage fuel call cursor acc.
Proof.
  intros H. revert cursor acc. induction fuel as [|fuel IH]; intros cursor acc.
  - reflexivity.
  - simpl. rewrite H. destruct (call cursor) as [r|e]; [|done].
    by rewrite IH.
Qed.

Lemma fetchPage_rejected {T} fuel (call : option jsstring -> reply (ListResponse T))
    cursor acc e :
  (fetchPage fuel call cursor acc).2 = Rejected e ->
  exists c, call c = Failure e.
Proof.
  revert cursor acc. induction fuel as [|fuel IH]; intros cursor acc; simpl.
  - discriminate.
  - destruct (call cursor) as [r|e'] eqn:Hc.
    + destruct (has_more r && truthy (next_cursor r)); simpl.
      * apply IH.
      * discriminate.
    + simpl. intros [= ->]. eauto.
Qed.

Lemma fetchPage_requests {T} fuel (call : option jsstring -> reply (ListResponse T))
    cursor acc :
  length (fetchPage fuel call cursor acc).1 <= fuel.
Proof.
  revert cursor acc. induction fuel as [|fuel IH]; intros cursor acc; simpl.
  - lia.
  - destruct (call cursor) as [r|e'].
    + destruct (has_more r && truthy (next_cursor r)); simpl.
      * specialize (IH (next_cursor r) (acc ++ filterFull (results r))). lia.
      * lia.
    + simpl. lia.
Qed.

Lemma stringifyBlock_ext notion notion' fuel block depth :
  blocks_children_list notion' = blocks_children_list notion ->
  stringifyBlock notion' fuel block depth = stringifyBlock notion fuel block depth.
Proof.
  intros H. revert block depth.
  induction fuel as [|fuel IH]; intros block depth; [reflexivity|].
  simpl. unfold fetchBlocksRecursively. rewrite H.
  destruct (if has_children block then _ else _) as [nested| |]; try reflexivity.
  unbind. destruct (0 <? length nested); [|reflexivity].
  rewrite (map_ext _ _ (fun child => IH child (depth + 1))). reflexivity.
Qed.

Lemma exportJob_ext host notion notion' fuel outputDir job :
  blocks_children_list notion' = blocks_children_list notion ->
  exportJob host notion' fuel outputDir job
  = exportJob host notion fuel outputDir job.
Proof.
  intros H. unfold exportJob, stringifyBlocks, fetchBlocksRecursively.
  rewrite H. unbind.
  destruct (fetchPage _ _ _ _).2 as [blocks| |]; try reflexivity.
  rewrite (map_ext _ _ (fun block => stringifyBlock_ext _ _ fuel block 0 H)).
  reflexivity.
Qed.

(** C10. When the database reports more than one data source, every
    query goes to the first one in the reported order and the pages
    returned are those collected from it alone; nothing is rejected on
    account of the other data sources, and neither the pages returned nor
    the files exported depend on what the other data sources hold. *)
Theorem C10_only_first_data_source notion fuel notionDatabaseId first others :
  databases_retrieve notion notionDatabaseId
    = Answer {| data_sources := Some (first :: others) |} ->
  others <> [] ->
  (fetchAllPages notion fuel notionDatabaseId).2
    = (fetchPage fuel (dataSources_query notion (data_source_id first)) None []).2
  /\ Forall (fun query => query.1 = data_source_id first)
       (fetchAllPages notion fuel notionDatabaseId).1
  /\ (forall e, (fetchAllPages notion fuel notionDatabaseId).2 = Rejected e ->
        exists cursor,
          dataSources_query notion (data_source_id first) cursor = Failure e)
  /\ (forall notion',
        databases_retrieve notion' notionDatabaseId
          = databases_retrieve notion notionDatabaseId ->
        (forall cursor,
           dataSources_query notion' (data_source_id first) cursor
           = dataSources_query notion (data_source_id first) cursor) ->
        fetchAllPages notion' fuel notionDatabaseId
          = fetchAllPages notion fuel notionDatabaseId
        /\ (blocks_children_list notion' = blocks_children_list notion ->
            forall host,
              run host notion' fuel notionDatabaseId
              = run host notion fuel notionDatabaseId)).
Proof.
  intros Hdb _.
  assert (Hfetch : forall n,
             databases_retrieve n notionDatabaseId
               = Answer {| data_sources := Some (first :: others) |} ->
             fetchAllPages n fuel notionDatabaseId
             = (map (fun cursor => (data_source_id first, cursor))
                  (fetchPage fuel (dataSources_query n (data_source_id first))
                     None []).1,
                (fetchPage fuel (dataSources_query n (data_source_id first))
                   None []).2)).
  { intros n Hn. unfold fetchAllPages. rewrite Hn. reflexivity. }
  rewrite (Hfetch notion Hdb). simpl.
  split; [reflexivity|]. split; [|split].
  - apply Forall_forall. intros q Hq.
    apply list_elem_of_In, in_map_iff in Hq. destruct Hq as (c & <- & _). done.
  - intros e. apply fetchPage_rejected.
  - intros notion' Hdb' Hq.
    assert (Heq : fetchAllPages notion' fuel notionDatabaseId
                  = fetchAllPages notion fuel notionDatabaseId).
    { rewrite (Hfetch notion Hdb), (Hfetch notion') by (by rewrite Hdb').
      by rewrite (fetchPage_ext fuel _ _ None [] Hq). }
    rewrite <- (Hfetch notion Hdb). split; [exact Heq|].
    intros Hb host. unfold run. rewrite Heq. unbind.
    destruct (mkdir host _); [|reflexivity].
    destruct (fetchAllPages notion fuel notionDatabaseId).2 as [pages| |];
      try reflexivity.
    destruct (exportJobs pages ∅) as [jobs| |]; try reflexivity.
    by rewrite (map_ext _ _ (fun job => exportJob_ext host _ _ fuel _ job Hb)).
Qed.

Lemma C10_only_first_data_source_witness :
  (fetchAllPages twoSources 1 (lit "db")).2
  = Resolved [titledPage (lit "a") (lit "In the first")]
  /\ (fetchAllPages twoSources 1 (lit "db")).1 = [(lit "first", None)].
Proof.
  pose proof (C10_only_first_data_source twoSources 1 (lit "db")
                {| data_source_id := lit "first" |}
                [ {| data_source_id := lit "second" |} ] eq_refl
                ltac:(discriminate)) as (H1 & _).
  split; [rewrite H1|]; vm_compute; reflexivity.
Defined.

(** ** Fuel *)

(** A settled outcome does not change when more fuel is given. *)
Lemma fetchPage_mono {T} fuel fuel' (call : option jsstring -> reply (ListResponse T))
    cursor acc :
  (fetchPage fuel call cursor acc).2 <> OutOfFuel -> fuel <= fuel' ->
  fetchPage fuel' call cursor acc = fetchPage fuel call cursor acc.
Proof.
  revert fuel' cursor acc.
  induction fuel as [|fuel IH]; intros fuel' cursor acc Hs Hle; [done|].
  destruct fuel' as [|fuel']; [lia|]. simpl in *.
  destruct (call cursor) as [r|e]; [|done].
  destruct (has_more r && truthy (next_cursor r)); [|done].
  simpl in Hs. rewrite (IH fuel') by (done || lia). done.
Qed.

Lemma Promise_all_map_mono {A B} (f g : A -> outcome B) l :
  (forall x, f x <> OutOfFuel -> g x = f x) ->
  Promise_all (map f l) <> OutOfFuel ->
  Promise_all (map g l) = Promise_all (map f l).
Proof.
  intros Hfg. induction l as [|a l IH]; [done|]. simpl. unbind.
  destruct (f a) as [v|e|] eqn:Hfa.
  - rewrite (Hfg a) by (by rewrite Hfa). rewrite Hfa.
    destruct (Promise_all (map f l)) as [vs|e|] eqn:Hl; intros Hs.
    + by rewrite IH.
    + by rewrite IH.
    + done.
  - rewrite (Hfg a) by (by rewrite Hfa). by rewrite Hfa.
  - done.
Qed.

Lemma stringifyBlock_mono notion fuel fuel' block depth :
  stringifyBlock notion fuel block depth <> OutOfFuel -> fuel <= fuel' ->
  stringifyBlock notion fuel' block depth = stringifyBlock notion fuel block depth.
Proof.
  revert fuel' block depth.
  induction fuel as [|fuel IH]; intros fuel' block depth Hs Hle; [done|].
  destruct fuel' as [|fuel']; [lia|]. simpl in *. unbind.
  assert (Hn : (if has_children block
                then fetchBlocksRecursively notion fuel' (block_id block)
                else Resolved [])
               = (if has_children block
                  then fetchBlocksRecursively notion fuel (block_id block)
                  else Resolved [])).
  { destruct (has_children block); [|done]. unfold fetchBlocksRecursively in *.
    destruct (fetchPage fuel _ None []).2 eqn:Hf; try done;
      rewrite (fetchPage_mono fuel fuel') by (rewrite ?Hf; done || lia); done. }
  rewrite Hn.
  destruct (if has_children block then _ else _) as [nested| |]; try done.
  destruct (0 <? length nested); [|done].
  assert (Hmono : forall child,
             stringifyBlock notion fuel child (depth + 1) <> OutOfFuel ->
             stringifyBlock notion fuel' child (depth + 1)
             = stringifyBlock notion fuel child (depth + 1)).
  { intros child Hc. apply IH; [exact Hc | lia]. }
  destruct (Promise_all (map (fun child => stringifyBlock notion fuel child _) nested))
    as [lines|e|] eqn:Hall; try done;
    rewrite (Promise_all_map_mono _ _ nested Hmono) by (rewrite Hall; done);
    rewrite Hall; done.
Qed.

Lemma exportJob_mono host notion fuel fuel' outputDir job :
  exportJob host notion fuel outputDir job <> OutOfFuel -> fuel <= fuel' ->
  exportJob host notion fuel' outputDir job
  = exportJob host notion fuel outputDir job.
Proof.
  unfold exportJob, stringifyBlocks, fetchBlocksRecursively. unbind.
  intros Hs Hle.
  destruct (fetchPage fuel _ None []).2 as [blocks|e|] eqn:Hf; try done;
    rewrite (fetchPage_mono fuel fuel') by (rewrite ?Hf; done || lia);
    rewrite Hf; [|done].
  assert (Hmono : forall block,
             stringifyBlock notion fuel block 0 <> OutOfFuel ->
             stringifyBlock notion fuel' block 0 = stringifyBlock notion fuel block 0).
  { intros block Hb. by apply stringifyBlock_mono. }
  destruct (Promise_all (map (fun block => stringifyBlock notion fuel block 0) blocks))
    as [lines|e|] eqn:Hall; try done;
    rewrite (Promise_all_map_mono _ _ blocks Hmono) by (rewrite Hall; done);
    rewrite Hall; done.
Qed.

Lemma run_mono host notion fuel fuel' notionDatabaseId :
  run host notion fuel notionDatabaseId <> OutOfFuel -> fuel <= fuel' ->
  run host notion fuel' notionDatabaseId = run host notion fuel notionDatabaseId.
Proof.
  unfold run. unbind. intros Hs Hle.
  destruct (mkdir host _); [|done].
  assert (Hp : (fetchAllPages notion fuel' notionDatabaseId).2
               = (fetchAllPages notion fuel notionDatabaseId).2).
  { unfold fetchAllPages in *.
    destruct (databases_retrieve notion notionDatabaseId) as [db|e]; [|done].
    destruct (data_sources db) as [sources|]; [|done].
    destruct (length sources =? 0); [done|].
    destruct (head sources) as [first|]; [|done]. simpl in *.
    destruct (fetchPage fuel _ None []).2 eqn:Hf; try done;
      rewrite (fetchPage_mono fuel fuel') by (rewrite ?Hf; done || lia); done. }
  rewrite Hp.
  destruct (fetchAllPages notion fuel notionDatabaseId).2 as [pages| |]; try done.
  destruct (exportJobs pages ∅) as [jobs| |]; try done.
  apply Promise_all_map_mono; [|done].
  intros job Hj. by apply exportJob_mono.
Qed.

(** On a host that accepts the export, [run] is the export jobs of the
    pages, and a job whose blocks are fetched and rendered writes its
    file. *)
Lemma run_accepted host notion fuel notionDatabaseId pages jobs used :
  accepts host ->
  (fetchAllPages notion fuel notionDatabaseId).2 = Resolved pages ->
  exportJobs pages ∅ = Resolved (jobs, used) ->
  run host notion fuel notionDatabaseId
  = Promise_all (map (exportJob host notion fuel (outputDirOf host)) jobs).
Proof.
  intros [Hmk _] Hp Hj. unfold run. fold (outputDirOf host).
  rewrite Hmk, Hp. unbind. by rewrite Hj.
Qed.

Lemma exportJob_accepted host notion fuel job blocks content :
  accepts host ->
  fetchBlocksRecursively notion fuel (page_id job.1) = Resolved blocks ->
  stringifyBlocks notion fuel blocks 0 = Resolved content ->
  exportJob host notion fuel (outputDirOf host) job
  = Resolved (path_join host (outputDirOf host) job.2,
              lit "---" ++ nl ++ lit "Written: " ++ take 10 (created_time job.1)
                ++ nl ++ lit "---" ++ nl ++ nl ++ content ++ nl).
Proof.
  intros [_ Hw] Hb Hc. unfold exportJob. rewrite Hb. unbind. rewrite Hc.
  rewrite Hw. unfold formatDate. by rewrite <- ?app_assoc.
Qed.

(** ** The end-to-end scenario *)

(** C5 fails as stated: with the to-do block nested in the paragraph the
    artifact has the to-do line directly under the paragraph, indented by
    two spaces. *)
Lemma C5_nested_todo_is_indented :
  fetchBlocksRecursively tripNested 1 (page_id tripPage) = Resolved [packedBags true]
  /\ fetchBlocksRecursively tripNested 1 (block_id (packedBags true))
     = Resolved [buyTickets]
  /\ run localHost tripNested 2 (lit "journal")
     = Resolved [(lit "/srv/notion/exports/Trip.md", tripIndented)]
  /\ tripIndented <> tripExpected.
Proof. repeat split; try (vm_compute; reflexivity). discriminate. Qed.

(** C5, amended. The artifact of the page titled Trip, created at
    2024-03-01T10:00:00.000Z, is the expected text when the bold
    paragraph and the unchecked to-do block are both top-level blocks of
    the page; when the to-do block is a child of the paragraph its line
    follows the paragraph directly, indented by two spaces. This is what
    [run] writes to Trip.md in the output directory on every host that
    accepts the directory and the file. In every export the date is the
    first ten characters of the creation time and a line feed follows the
    rendered body. *)
Theorem C5_trip_scenario :
  (forall host fuel, accepts host -> 2 <= fuel ->
     run host tripSiblings fuel (lit "journal")
     = Resolved [(path_join host (outputDirOf host) (lit "Trip.md"), tripExpected)]
     /\ run host tripNested fuel (lit "journal")
        = Resolved [(path_join host (outputDirOf host) (lit "Trip.md"),
                     tripIndented)])
  /\ (forall host notion fuel outputDir page fileName written,
        exportJob host notion fuel outputDir (page, fileName) = Resolved written ->
        exists blocks content,
          fetchBlocksRecursively notion fuel (page_id page) = Resolved blocks
          /\ stringifyBlocks notion fuel blocks 0 = Resolved content
          /\ written =
             (path_join host outputDir fileName,
              lit "---" ++ nl ++ lit "Written: " ++ take 10 (created_time page)
                ++ nl ++ lit "---" ++ nl ++ nl ++ content ++ nl)).
Proof.
  split.
  - intros host fuel Hhost Hf.
    assert (Hjobs : exportJobs [tripPage] ∅
                    = Resolved ([(tripPage, lit "Trip.md")], {[lit "Trip.md"]} ∪ ∅))
      by (vm_compute; reflexivity).
    split.
    + rewrite (run_mono _ _ 2 fuel); [| |done].
      * rewrite (run_accepted host tripSiblings 2 _ [tripPage] _ _ Hhost
                   ltac:(vm_compute; reflexivity) Hjobs).
        cbn [map Promise_all].
        rewrite (exportJob_accepted host tripSiblings 2 (tripPage, lit "Trip.md")
                   [packedBags false; buyTickets]
                   (lit "**Packed bags**" ++ nl ++ nl ++ lit "- [ ] Buy tickets")
                   Hhost ltac:(vm_compute; reflexivity)
                   ltac:(vm_compute; reflexivity)).
        reflexivity.
      * rewrite (run_accepted host tripSiblings 2 _ [tripPage] _ _ Hhost
                   ltac:(vm_compute; reflexivity) Hjobs).
        cbn [map Promise_all].
        rewrite (exportJob_accepted host tripSiblings 2 (tripPage, lit "Trip.md")
                   [packedBags false; buyTickets]
                   (lit "**Packed bags**" ++ nl ++ nl ++ lit "- [ ] Buy tickets")
                   Hhost ltac:(vm_compute; reflexivity)
                   ltac:(vm_compute; reflexivity)).
        discriminate.
    + rewrite (run_mono _ _ 2 fuel); [| |done].
      * rewrite (run_accepted host tripNested 2 _ [tripPage] _ _ Hhost
                   ltac:(vm_compute; reflexivity) Hjobs).
        cbn [map Promise_all].
        rewrite (exportJob_accepted host tripNested 2 (tripPage, lit "Trip.md")
                   [packedBags true]
                   (lit "**Packed bags**" ++ nl ++ lit "  - [ ] Buy tickets")
                   Hhost ltac:(vm_compute; reflexivity)
                   ltac:(vm_compute; reflexivity)).
        reflexivity.
      * rewrite (run_accepted host tripNested 2 _ [tripPage] _ _ Hhost
                   ltac:(vm_compute; reflexivity) Hjobs).
        cbn [map Promise_all].
        rewrite (exportJob_accepted host tripNested 2 (tripPage, lit "Trip.md")
                   [packedBags true]
                   (lit "**Packed bags**" ++ nl ++ lit "  - [ ] Buy tickets")
                   Hhost ltac:(vm_compute; reflexivity)
                   ltac:(vm_compute; reflexivity)).
        discriminate.
  - intros host notion fuel outputDir page fileName written.
    unfold exportJob. unbind. cbn [fst snd].
    destruct (fetchBlocksRecursively notion fuel (page_id page))
      as [blocks| |] eqn:Hb; try discriminate.
    destruct (stringifyBlocks notion fuel blocks 0) as [content| |] eqn:Hc;
      try discriminate.
    destruct (writeFile host _ _); [|discriminate].
    intros H. exists blocks, content. split; [done|]. split; [done|].
    inversion H. unfold formatDate. rewrite <- ?app_assoc. reflexivity.
Qed.

Lemma C5_trip_scenario_witness :
  run localHost tripSiblings 2 (lit "journal")
  = Resolved [(path_join localHost (outputDirOf localHost) (lit "Trip.md"),
               tripExpected)]
  /\ run localHost tripNested 2 (lit "journal")
     = Resolved [(path_join localHost (outputDirOf localHost) (lit "Trip.md"),
                  tripIndented)].
Proof.
  apply (proj1 C5_trip_scenario localHost 2); [|lia].
  split; [reflexivity | intros fileName content; reflexivity].
Defined.

(** ** Sanitizing file names *)

Lemma isUnsafe_isReplaced c : isUnsafe c = isReplaced c.
Proof.
  unfold isUnsafe, isReplaced.
  destruct (bool_decide (c ∈ forbiddenCharacters)) eqn:Hin.
  - apply bool_decide_eq_true in Hin. vm_compute in Hin.
    repeat (apply elem_of_cons in Hin as [->|Hin]; [reflexivity|]).
    by apply elem_of_nil in Hin.
  - apply bool_decide_eq_false in Hin.
    assert (Hne : forall k, k ∈ forbiddenCharacters -> (c =? k)%N = false).
    { intros k Hk. apply N.eqb_neq. intros ->. done. }
    rewrite !Hne by (vm_compute; set_solver). simpl.
    destruct (N.leb_spec c 31), (N.ltb_spec c 32); (done || lia).
Qed.

Lemma replaceRuns_collapse s :
  replaceRuns false s = collapseWhitespace s
  /\ (forall c, isWhiteSpace c = true ->
        SP :: replaceRuns true s = collapseWhitespace (c :: s)).
Proof.
  induction s as [|d r [IH1 IH2]]; split.
  - reflexivity.
  - intros c Hc. simpl. by rewrite Hc.
  - simpl. destruct (isWhiteSpace d) eqn:Hd.
    + rewrite (IH2 d Hd). simpl. by rewrite Hd.
    + by rewrite IH1.
  - intros c Hc. cbn [replaceRuns collapseWhitespace]. rewrite Hc.
    destruct (isWhiteSpace d) eqn:Hd.
    + rewrite (IH2 d Hd). cbn [collapseWhitespace]. by rewrite Hd.
    + by rewrite IH1.
Qed.

Lemma Forall_trimStart (P : N -> Prop) s : Forall P s -> Forall P (trimStart s).
Proof.
  induction 1 as [|c r Hc Hr IH]; simpl; [constructor|].
  destruct (isWhiteSpace c); [exact IH | by constructor].
Qed.

Lemma Forall_trim (P : N -> Prop) s : Forall P s -> Forall P (trim s).
Proof.
  intros H. unfold trim, trimEnd.
  apply Forall_rev, Forall_trimStart, Forall_rev, Forall_trimStart, H.
Qed.

Lemma Forall_replaceRuns (P : N -> Prop) inRun s :
  P SP -> Forall P s -> Forall P (replaceRuns inRun s).
Proof.
  intros Hsp H. revert inRun.
  induction H as [|c r Hc Hr IH]; intros inRun; simpl; [constructor|].
  destruct (isWhiteSpace c), inRun; auto.
Qed.

Lemma Forall_replaceClass s :
  Forall (fun c => isUnsafe c = false) (replaceClass isUnsafe HYPHEN s).
Proof.
  unfold replaceClass. apply Forall_map, Forall_forall. intros c _. simpl.
  destruct (isUnsafe c) eqn:Hc; [reflexivity | exact Hc].
Qed.

(** ** Indentation by depth *)

Lemma indent_spaces depth : indent depth = replicate (2 * depth) SP.
Proof.
  unfold indent. induction depth as [|d IH]; [reflexivity|].
  replace (2 * S d) with (S (S (2 * d))) by lia.
  change (repeat_string (lit "  ") (S d))
    with (lit "  " ++ repeat_string (lit "  ") d).
  rewrite IH. reflexivity.
Qed.

Lemma leadingSpaces_replicate n body :
  leadingSpaces (replicate n SP ++ body) = n + leadingSpaces body.
Proof. induction n as [|n IH]; simpl; [done|]. by rewrite IH. Qed.

Lemma leadingSpaces_app a b :
  leadingSpaces b = 0 -> leadingSpaces (a ++ b) = leadingSpaces a.
Proof.
  intros Hb. induction a as [|c a IH]; simpl; [done|].
  destruct (c =? SP)%N; [by rewrite IH | done].
Qed.

Lemma normalizeText_cons c rest :
  c <> CR -> normalizeText (c :: rest) = c :: normalizeText rest.
Proof.
  intros Hc. simpl. destruct rest as [|d rest']; [done|].
  destruct (N.eqb_spec c CR); [done|]. reflexivity.
Qed.

Lemma normalizeText_nil s : normalizeText s = [] -> s = [].
Proof.
  destruct s as [|c [|d r]]; simpl; [done|done|].
  destruct ((c =? CR)%N && (d =? LF)%N); done.
Qed.

Lemma leadingSpaces_normalizeText s :
  leadingSpaces (normalizeText s) = leadingSpaces s.
Proof.
  induction s as [|c rest IH]; [done|].
  destruct (N.eqb_spec c SP) as [->|Hc].
  - rewrite normalizeText_cons by done. simpl. by rewrite IH.
  - simpl. destruct rest as [|d rest'].
    + simpl. by destruct (N.eqb_spec c SP).
    + destruct (N.eqb_spec c CR) as [->|Hcr]; simpl.
      * destruct (d =? LF)%N; reflexivity.
      * by destruct (N.eqb_spec c SP).
Qed.

Lemma normalizeText_spaces n body :
  normalizeText (replicate n SP ++ body) = replicate n SP ++ normalizeText body.
Proof.
  induction n as [|n IH]; [done|]. simpl replicate. cbn [app].
  rewrite normalizeText_cons by done. by rewrite IH.
Qed.

Lemma blockTemplate_indent block depth nestedMarkdown :
  blockTemplate block depth nestedMarkdown <> [] ->
  leadingSpaces nestedMarkdown = 0 ->
  (exists body,
      blockTemplate block depth nestedMarkdown = replicate (2 * depth) SP ++ body)
  /\ leadingSpaces (blockTemplate block depth nestedMarkdown)
     = 2 * depth + ownLeadingSpaces block.
Proof.
  unfold blockTemplate, ownLeadingSpaces. intros Hne Hnm.
  destruct (data block) as
    [rt|rt|rt|rt|rt ch|rt|rt|ic rt|la rt| |ex|im ca|u|fi ca|v|a|pd ca|u|t|t| |rt|rt|ty];
    try (rewrite indent_spaces in *; split;
         [eexists; reflexivity
         | rewrite leadingSpaces_replicate; try reflexivity]).
  - destruct (0 <? length (toInlineMarkdown rt)); [|done].
    rewrite indent_spaces. split; [eexists; reflexivity|].
    by rewrite leadingSpaces_replicate, leadingSpaces_app.
  - done.
Qed.

Lemma Promise_all_resolved {A B} (f : A -> outcome B) l values :
  Promise_all (map f l) = Resolved values ->
  Forall2 (fun x v => f x = Resolved v) l values.
Proof.
  revert values. induction l as [|a l IH]; intros values; simpl; unbind.
  - intros [= <-]. constructor.
  - destruct (f a) as [v| |] eqn:Ha; try discriminate.
    destruct (Promise_all (map f l)) as [vs| |]; try discriminate.
    intros [= <-]. constructor; [exact Ha | by apply IH].
Qed.

Lemma Forall2_elem_r {A B} (P : A -> B -> Prop) l k y :
  Forall2 P l k -> y ∈ k -> exists x, x ∈ l /\ P x y.
Proof.
  induction 1 as [|x y' l k Hxy _ IH]; intros Hy.
  - by apply elem_of_nil in Hy.
  - apply elem_of_cons in Hy as [->|Hy].
    + exists x. split; [left | done].
    + destruct (IH Hy) as (x' & Hx' & HP). exists x'. split; [by right | done].
Qed.

Lemma stringifyBlock_indent notion fuel block depth s :
  stringifyBlock notion fuel block depth = Resolved s -> s <> [] ->
  (exists body, s = replicate (2 * depth) SP ++ body)
  /\ leadingSpaces s = 2 * depth + ownLeadingSpaces block.
Proof.
  intros H Hne.
  destruct (stringifyBlock_resolved _ _ _ _ _ H) as (f & n & nm & _ & _ & Hnm & ->).
  apply blockTemplate_indent; [done|].
  destruct (0 <? length n); [|by subst].
  destruct Hnm as (lines & _ & ->). reflexivity.
Qed.

(** C9 fails as stated: a paragraph whose text begins with a space,
    rendered at depth 0 and at depth 1, begins with one space more than
    twice its depth. *)
Lemma C9_paragraph_text_adds_spaces :
  stringifyBlock (workspace [] (fun _ => [])) 1
    (textBlock (lit "p") false (lit " x")) 0 = Resolved (lit " x")
  /\ leadingSpaces (lit " x") = 1
  /\ stringifyBlock (workspace [] (fun _ => [])) 1
       (textBlock (lit "p") false (lit " x")) 1 = Resolved (lit "   x")
  /\ leadingSpaces (lit "   x") = 3
  /\ leadingSpaces (lit " x") <> 2 * 0
  /\ leadingSpaces (lit "   x") <> 2 * 1.
Proof. repeat split; discriminate. Qed.

(** C9, amended. A block rendered at depth d to a non-empty output
    begins with the 2*d spaces of its indentation, and the number of
    spaces it begins with is exactly 2*d for every kind of block but the
    paragraph, where the spaces its own text begins with are added. Its
    children are rendered at depth d+1, and every child line kept in the
    output begins with 2*(d+1) spaces and, counted exactly, with
    2*(d+1) spaces and those of the child's own text. *)
Theorem C9_depth_indentation notion fuel block depth s :
  stringifyBlock notion fuel block depth = Resolved s -> s <> [] ->
  (exists body, s = replicate (2 * depth) SP ++ body)
  /\ leadingSpaces s = 2 * depth + ownLeadingSpaces block
  /\ exists fuel' nested nestedMarkdown,
      fuel = S fuel'
      /\ (if has_children block
          then fetchBlocksRecursively notion fuel' (block_id block)
          else Resolved []) = Resolved nested
      /\ s = blockTemplate block depth nestedMarkdown
      /\ (nested = [] -> nestedMarkdown = [])
      /\ (nested <> [] ->
          exists markdownLines,
            Promise_all
              (map (fun child => stringifyBlock notion fuel' child (depth + 1))
                 nested) = Resolved markdownLines
            /\ nestedMarkdown = nl ++ join (nl ++ nl) (keptLines markdownLines)
            /\ Forall
                 (fun line =>
                    (exists body, line = replicate (2 * (depth + 1)) SP ++ body)
                    /\ exists child,
                        child ∈ nested
                        /\ leadingSpaces line
                           = 2 * (depth + 1) + ownLeadingSpaces child)
                 (keptLines markdownLines)).
Proof.
  intros H Hne.
  destruct (stringifyBlock_indent _ _ _ _ _ H Hne) as [Hpre Hcount].
  split; [exact Hpre|]. split; [exact Hcount|].
  destruct (stringifyBlock_resolved _ _ _ _ _ H) as (f & n & nm & -> & Hn & Hnm & ->).
  exists f, n, nm. split; [done|]. split; [done|]. split; [done|].
  destruct (0 <? length n) eqn:Hlen.
  - split; [intros ->; discriminate Hlen|]. intros _.
    destruct Hnm as (lines & Hall & ->). exists lines.
    split; [exact Hall|]. split; [reflexivity|].
    apply Promise_all_resolved in Hall.
    unfold keptLines. apply Forall_forall. intros line Hline.
    apply list_elem_of_In, filter_In in Hline. destruct Hline as [Hin Hkeep].
    apply in_map_iff in Hin. destruct Hin as (raw & <- & Hraw).
    apply list_elem_of_In, (Forall2_elem_r _ _ _ _ Hall) in Hraw.
    destruct Hraw as (child & Hchild & Hrender).
    assert (Hraw_ne : raw <> []).
    { intros ->. simpl in Hkeep. discriminate. }
    destruct (stringifyBlock_indent _ _ _ _ _ Hrender Hraw_ne)
      as [[body ->] Hc].
    split.
    + exists (normalizeText body). apply normalizeText_spaces.
    + exists child. split; [exact Hchild|].
      by rewrite leadingSpaces_normalizeText.
  - split; [done|]. intros Hn'. destruct n; [done | discriminate Hlen].
Qed.

Lemma C9_depth_indentation_witness :
  leadingSpaces (lit "   x")
  = 2 * 1 + ownLeadingSpaces (textBlock (lit "p") false (lit " x")).
Proof.
  apply (C9_depth_indentation (workspace [] (fun _ => [])) 1
           (textBlock (lit "p") false (lit " x")) 1 (lit "   x"));
    [reflexivity | discriminate].
Defined.

(** ** Allocating unique names *)

Lemma find_seq_spec (f : nat -> bool) a n k :
  List.find f (seq a n) = Some k ->
  (a <= k < a + n) /\ f k = true /\ forall j, a <= j < k -> f j = false.
Proof.
  revert a. induction n as [|n IH]; intros a; simpl; [discriminate|].
  destruct (f a) eqn:Ha.
  - intros [= <-]. repeat split; [lia | lia | exact Ha | intros j Hj; lia].
  - intros Hfind. destruct (IH _ Hfind) as (Hr & Hk & Hlt).
    repeat split; [lia | lia | exact Hk |].
    intros j Hj. destruct (decide (j = a)) as [->|Hne]; [exact Ha|].
    apply Hlt. lia.
Qed.

Lemma find_seq_first (f : nat -> bool) a n k :
  a <= k < a + n -> f k = true -> (forall j, a <= j < k -> f j = false) ->
  List.find f (seq a n) = Some k.
Proof.
  revert a. induction n as [|n IH]; intros a Hr Hk Hlt; simpl; [lia|].
  destruct (decide (a = k)) as [->|Hne].
  - by rewrite Hk.
  - rewrite (Hlt a) by lia. apply IH; [lia | exact Hk |].
    intros j Hj. apply Hlt. lia.
Qed.

Lemma find_seq_none (f : nat -> bool) a n :
  List.find f (seq a n) = None -> forall j, a <= j < a + n -> f j = false.
Proof.
  intros H j Hj. apply (find_none f _ H). apply in_seq. lia.
Qed.

Lemma ensureUniqueFileName_unfold desiredName existing :
  ensureUniqueFileName desiredName existing =
    if bool_decide (plainName desiredName ∈ existing)
    then
      match List.find
              (fun index =>
                 negb (bool_decide (suffixedName desiredName index ∈ existing)))
              (seq 2 maxProbes) with
      | None | Some O =>
        Rejected (lit "Could not allocate unique filename for "
                    ++ baseNameOf desiredName)
      | Some index =>
        Resolved (suffixedName desiredName index,
                  {[suffixedName desiredName index]} ∪ existing)
      end
    else Resolved (plainName desiredName, {[plainName desiredName]} ∪ existing).
Proof. reflexivity. Qed.

Lemma lit_inj s1 s2 : lit s1 = lit s2 -> s1 = s2.
Proof.
  revert s2. induction s1 as [|a s1 IH]; intros [|b s2]; simpl; try done.
  intros [= Hab Hs]. f_equal; [|by apply IH].
  by rewrite <- (ascii_N_embedding a), <- (ascii_N_embedding b), Hab.
Qed.

Lemma numberToString_inj i j : numberToString i = numberToString j -> i = j.
Proof.
  unfold numberToString. intros H. apply lit_inj in H.
  apply (f_equal NilEmpty.uint_of_string) in H. rewrite !NilEmpty.usu in H.
  injection H as H. apply (f_equal Nat.of_uint) in H.
  by rewrite !Unsigned.of_to in H.
Qed.

Lemma suffixedName_inj desiredName i j :
  suffixedName desiredName i = suffixedName desiredName j -> i = j.
Proof.
  unfold suffixedName. intros H.
  apply app_inv_head, app_inv_head, app_inv_tail in H.
  by apply numberToString_inj.
Qed.

Lemma suffixedName_plainName desiredName i :
  suffixedName desiredName i <> plainName desiredName.
Proof.
  unfold suffixedName, plainName. intros H. apply app_inv_head in H.
  discriminate H.
Qed.

(** One allocation: the name is new, it is reserved, and it is the
    unsuffixed name when that is free, else the suffixed name of the
    least free index. *)
Lemma ensureUniqueFileName_resolved desiredName existing name used :
  ensureUniqueFileName desiredName existing = Resolved (name, used) ->
  (name ∉ existing)
  /\ used = {[name]} ∪ existing
  /\ ((plainName desiredName ∉ existing) /\ name = plainName desiredName
      \/ (plainName desiredName ∈ existing)
         /\ exists index,
             (2 <= index < 2 + maxProbes)
             /\ name = suffixedName desiredName index
             /\ forall j, 2 <= j < index ->
                  suffixedName desiredName j ∈ existing).
Proof.
  rewrite ensureUniqueFileName_unfold.
  destruct (bool_decide (plainName desiredName ∈ existing)) eqn:Hplain.
  - apply bool_decide_eq_true in Hplain.
    destruct (List.find _ _) as [index|] eqn:Hfind; [|discriminate].
    destruct (find_seq_spec _ _ _ _ Hfind) as (Hr & Hfree & Hlt).
    destruct index as [|index]; [lia|]. intros [= <- <-].
    apply negb_true_iff, bool_decide_eq_false in Hfree.
    split; [exact Hfree|]. split; [reflexivity|]. right.
    split; [exact Hplain|]. exists (S index). split; [exact Hr|].
    split; [reflexivity|]. intros j Hj.
    specialize (Hlt j Hj). by apply negb_false_iff, bool_decide_eq_true in Hlt.
  - apply bool_decide_eq_false in Hplain. intros [= <- <-]. auto.
Qed.

Lemma ensureUniqueFileName_settles desiredName existing :
  ensureUniqueFileName desiredName existing <> OutOfFuel
  /\ (forall e, ensureUniqueFileName desiredName existing = Rejected e ->
        plainName desiredName ∈ existing
        /\ forall j, 2 <= j < 2 + maxProbes ->
             suffixedName desiredName j ∈ existing).
Proof.
  rewrite ensureUniqueFileName_unfold.
  destruct (bool_decide (plainName desiredName ∈ existing)) eqn:Hplain.
  - apply bool_decide_eq_true in Hplain.
    destruct (List.find _ _) as [index|] eqn:Hfind.
    + destruct (find_seq_spec _ _ _ _ Hfind) as (Hr & _ & _).
      destruct index as [|index]; [lia|]. split; [done|]. intros e; done.
    + split; [done|]. intros e _. split; [exact Hplain|]. intros j Hj.
      pose proof (find_seq_none _ _ _ Hfind j Hj) as Hj'. simpl in Hj'.
      by apply negb_false_iff, bool_decide_eq_true in Hj'.
  - split; [done|]. intros e; done.
Qed.

Lemma allocateAll_resolved desiredNames usedNames names used :
  allocateAll desiredNames usedNames = Resolved (names, used) ->
  NoDup names
  /\ (forall name, name ∈ names -> name ∉ usedNames)
  /\ used = list_to_set names ∪ usedNames
  /\ length names = length desiredNames.
Proof.
  revert usedNames names used.
  induction desiredNames as [|d rest IH]; intros usedNames names used; simpl.
  - unbind. intros [= <- <-]. repeat split; [constructor | |].
    + intros name Hn. by apply elem_of_nil in Hn.
    + by rewrite list_to_set_nil, (left_id_L ∅ (∪)).
  - unbind.
    destruct (ensureUniqueFileName d usedNames) as [[n u1]| |] eqn:Hd;
      try discriminate.
    cbn [fst snd].
    destruct (allocateAll rest u1) as [[ns u2]| |] eqn:Hrest; try discriminate.
    cbn [fst snd]. intros [= <- <-].
    destruct (ensureUniqueFileName_resolved _ _ _ _ Hd) as (Hnew & -> & _).
    destruct (IH _ _ _ Hrest) as (Hnd & Hfresh & -> & Hlen).
    repeat split.
    + apply NoDup_cons. split; [|exact Hnd].
      intros Hin. apply Hfresh in Hin.
      apply Hin, elem_of_union_l, elem_of_singleton. reflexivity.
    + intros name Hname. apply elem_of_cons in Hname as [->|Hname]; [done|].
      apply Hfresh in Hname. intros Hu. apply Hname, elem_of_union_r, Hu.
    + rewrite list_to_set_cons, (assoc_L (∪) (list_to_set ns)).
      by rewrite (comm_L (∪) (list_to_set ns) {[n]}).
    + simpl. by rewrite Hlen.
Qed.

(** Copies of one desired name: once the unsuffixed name and the
    suffixed names below [2 + i] are taken and no later one is, the next
    [n] copies get the next [n] indices. *)
Lemma allocateAll_copies desiredName n i existing :
  plainName desiredName ∈ existing ->
  (forall j, 2 <= j < 2 + i -> suffixedName desiredName j ∈ existing) ->
  (forall j, 2 + i <= j -> suffixedName desiredName j ∉ existing) ->
  i + n <= maxProbes ->
  allocatedNames (allocateAll (replicate n desiredName) existing)
  = Resolved (map (suffixedName desiredName) (seq (2 + i) n)).
Proof.
  revert i existing.
  induction n as [|n IH]; intros i existing Hplain Hin Hout Hle; [reflexivity|].
  assert (Hnext : allocatedNames
                    (allocateAll (replicate n desiredName)
                       ({[suffixedName desiredName (2 + i)]} ∪ existing))
                  = Resolved (map (suffixedName desiredName) (seq (2 + S i) n))).
  { apply IH; [by apply elem_of_union_r | | | lia].
    - intros j Hj. destruct (decide (j = 2 + i)) as [->|Hne].
      + apply elem_of_union_l, elem_of_singleton. reflexivity.
      + apply elem_of_union_r, Hin. lia.
    - intros j Hj Hmem. apply elem_of_union in Hmem as [Hmem|Hmem].
      + apply elem_of_singleton, suffixedName_inj in Hmem. lia.
      + apply (Hout j); [lia | exact Hmem]. }
  cbn [replicate allocateAll]. rewrite ensureUniqueFileName_unfold.
  rewrite (bool_decide_eq_true_2 _ Hplain).
  rewrite (find_seq_first _ 2 maxProbes (2 + i)).
  - change (2 + i) with (S (S i)) in *. cbn iota.
    unfold allocatedNames in *. unbind. cbn [fst snd].
    destruct (allocateAll (replicate n desiredName) _) as [[ns u]| |];
      cbn [fst snd] in *; [|discriminate Hnext|discriminate Hnext].
    injection Hnext as ->. reflexivity.
  - lia.
  - apply negb_true_iff, bool_decide_eq_false. apply Hout. lia.
  - intros j Hj. apply negb_false_iff, bool_decide_eq_true. apply Hin. lia.
Qed.

Lemma exportJobs_allocateAll pages usedNames jobs used :
  exportJobs pages usedNames = Resolved (jobs, used) ->
  allocateAll (map (fun page => sanitizeFileName (getTitle page)) pages) usedNames
    = Resolved (map snd jobs, used)
  /\ map fst jobs = pages.
Proof.
  revert usedNames jobs used.
  induction pages as [|page rest IH]; intros usedNames jobs used; simpl; unbind.
  - intros [= <- <-]. done.
  - destruct (ensureUniqueFileName _ usedNames) as [[n u1]| |]; try discriminate.
    cbn [fst snd].
    destruct (exportJobs rest u1) as [[js u2]| |] eqn:Hrest; try discriminate.
    cbn [fst snd]. intros [= <- <-].
    destruct (IH _ _ _ Hrest) as [-> <-]. done.
Qed.

(** C2 fails as stated: after the stem A has been given twice, the first
    occurrence of the stem A (2) finds its unsuffixed name taken and gets
    a suffixed one. *)
Lemma C2_first_occurrence_suffixed :
  allocatedNames (allocateAll [lit "A"; lit "A"; lit "A (2)"] ∅)
  = Resolved [lit "A.md"; lit "A (2).md"; lit "A (2) (2).md"]
  /\ lit "A (2) (2).md" <> plainName (lit "A (2)").
Proof. split; [vm_compute; reflexivity | discriminate]. Qed.

(** C2, amended. The names allocated to a batch in input order against
    one set are pairwise distinct, new to the set, and reserved in it.
    Each name is the unsuffixed one when that is still free, and else the
    suffixed one of the least index from 2 on that is free; an allocation
    is rejected only when the unsuffixed name and all 10000 suffixed names
    are taken. A batch of up to 10001 copies of one name, allocated
    against the empty set, gets the unsuffixed name and then the indices
    2, 3, ... in order. The file names of the export jobs are allocated
    this way from the sanitized titles. *)
Theorem C2_unique_names :
  (forall desiredNames usedNames names used,
     allocateAll desiredNames usedNames = Resolved (names, used) ->
     NoDup names
     /\ (forall name, name ∈ names -> name ∉ usedNames)
     /\ used = list_to_set names ∪ usedNames
     /\ length names = length desiredNames)
  /\ (forall desiredName existing name used,
        ensureUniqueFileName desiredName existing = Resolved (name, used) ->
        (name ∉ existing)
        /\ used = {[name]} ∪ existing
        /\ ((plainName desiredName ∉ existing) /\ name = plainName desiredName
            \/ (plainName desiredName ∈ existing)
               /\ exists index,
                   (2 <= index < 2 + maxProbes)
                   /\ name = suffixedName desiredName index
                   /\ forall j, 2 <= j < index ->
                        suffixedName desiredName j ∈ existing))
  /\ (forall desiredName existing e,
        ensureUniqueFileName desiredName existing = Rejected e ->
        (plainName desiredName ∈ existing)
        /\ forall j, 2 <= j < 2 + maxProbes ->
             suffixedName desiredName j ∈ existing)
  /\ (forall desiredName n, n <= maxProbes ->
        allocatedNames (allocateAll (replicate (S n) desiredName) ∅)
        = Resolved (plainName desiredName
                      :: map (suffixedName desiredName) (seq 2 n)))
  /\ (forall pages usedNames jobs used,
        exportJobs pages usedNames = Resolved (jobs, used) ->
        allocateAll (map (fun page => sanitizeFileName (getTitle page)) pages)
          usedNames = Resolved (map snd jobs, used)
        /\ map fst jobs = pages).
Proof.
  split; [exact allocateAll_resolved|].
  split; [exact ensureUniqueFileName_resolved|].
  split; [intros d ex e; apply ensureUniqueFileName_settles|].
  split; [|exact exportJobs_allocateAll].
  intros desiredName n Hn.
  assert (Hcopies : allocatedNames
                      (allocateAll (replicate n desiredName)
                         ({[plainName desiredName]} ∪ ∅))
                    = Resolved (map (suffixedName desiredName) (seq 2 n))).
  { apply (allocateAll_copies desiredName n 0); [| | |lia].
    - apply elem_of_union_l, elem_of_singleton. reflexivity.
    - intros j Hj. lia.
    - intros j _ Hmem. apply elem_of_union in Hmem as [Hmem|Hmem].
      + apply elem_of_singleton in Hmem. by apply suffixedName_plainName in Hmem.
      + by apply not_elem_of_empty in Hmem. }
  cbn [replicate allocateAll]. rewrite ensureUniqueFileName_unfold.
  rewrite bool_decide_eq_false_2 by apply not_elem_of_empty.
  unfold allocatedNames in *. unbind. cbn [fst snd] in *.
  destruct (allocateAll (replicate n desiredName) _) as [[ns u]| |];
    cbn [fst snd] in *; [|discriminate Hcopies|discriminate Hcopies].
  injection Hcopies as ->. reflexivity.
Qed.

Lemma C2_unique_names_witness :
  allocatedNames (allocateAll (replicate 3 (lit "Daily Note")) ∅)
  = Resolved [lit "Daily Note.md"; lit "Daily Note (2).md";
              lit "Daily Note (3).md"].
Proof.
  apply (proj1 (proj2 (proj2 (proj2 C2_unique_names))) (lit "Daily Note") 2).
  apply Nat.leb_le. vm_compute. reflexivity.
Defined.

(** * Further properties of the exporter *)

(** ** Line endings *)

Lemma normalizeText_step c d rest :
  ((c =? CR)%N && (d =? LF)%N) = false ->
  normalizeText (c :: d :: rest) = c :: normalizeText (d :: rest).
Proof. intros H. cbn [normalizeText]. by rewrite H. Qed.

Lemma normalizeText_pair rest :
  normalizeText (CR :: LF :: rest) = LF :: normalizeText rest.
Proof. reflexivity. Qed.

Lemma normalizeText_length_aux s :
  length (normalizeText s) <= length s
  /\ forall c, length (normalizeText (c :: s)) <= S (length s).
Proof.
  induction s as [|d r [IH1 IH2]]; [split; [done | intros c; simpl; lia]|].
  split; [apply IH2|]. intros c.
  destruct ((c =? CR)%N && (d =? LF)%N) eqn:Hcd.
  - apply andb_true_iff in Hcd as [->%N.eqb_eq ->%N.eqb_eq].
    rewrite normalizeText_pair. simpl. lia.
  - rewrite (normalizeText_step _ _ _ Hcd). simpl.
    specialize (IH2 d). simpl in IH2. lia.
Qed.

Lemma normalizeText_crlf_aux b a :
  (last a <> Some CR ->
   normalizeText (a ++ CR :: LF :: b) = normalizeText a ++ LF :: normalizeText b)
  /\ forall c,
      last (c :: a) <> Some CR ->
      normalizeText ((c :: a) ++ CR :: LF :: b)
      = normalizeText (c :: a) ++ LF :: normalizeText b.
Proof.
  induction a as [|d r [IH1 IH2]].
  - split; [intros _; reflexivity|]. intros c Hc. simpl in Hc.
    assert (c <> CR) by congruence.
    cbn [app]. rewrite normalizeText_step, normalizeText_pair; [reflexivity|].
    apply andb_false_iff. left. by apply N.eqb_neq.
  - split; [apply IH2|]. intros c Hc.
    destruct ((c =? CR)%N && (d =? LF)%N) eqn:Hcd.
    + apply andb_true_iff in Hcd as [->%N.eqb_eq ->%N.eqb_eq].
      cbn [app]. rewrite !normalizeText_pair, IH1; [reflexivity|].
      destruct r; [done | exact Hc].
    + cbn [app] in *. rewrite !(normalizeText_step _ _ _ Hcd).
      rewrite (IH2 d); [reflexivity | exact Hc].
Qed.

(** X1. [normalizeText] leaves a string without carriage return as it
    is, never makes a string longer, and turns a carriage return and line
    feed pair into a line feed wherever the text before the pair does not
    end in a carriage return. *)
Theorem normalizeText_line_endings :
  (forall s, CR ∉ s -> normalizeText s = s)
  /\ (forall s, length (normalizeText s) <= length s)
  /\ (forall a b, last a <> Some CR ->
        normalizeText (a ++ CR :: LF :: b)
        = normalizeText a ++ LF :: normalizeText b).
Proof.
  split; [|split].
  - intros s. induction s as [|c rest IH]; intros Hs; [done|].
    apply not_elem_of_cons in Hs as [Hc Hrest].
    rewrite normalizeText_cons by done. by rewrite IH.
  - intros s. apply normalizeText_length_aux.
  - intros a b. apply normalizeText_crlf_aux.
Qed.

Lemma normalizeText_line_endings_witness :
  normalizeText (lit "a" ++ CR :: LF :: lit "b")
  = normalizeText (lit "a") ++ LF :: normalizeText (lit "b").
Proof.
  apply (proj2 (proj2 normalizeText_line_endings) (lit "a") (lit "b")).
  discriminate.
Defined.

(** ** Unstyled text *)

(** X2. Runs of plain text without style and without link target are
    passed through: the composed text is the concatenation of their
    payloads. Composition is run by run, so it distributes over the
    concatenation of run sequences. *)
Theorem toInlineMarkdown_plain_runs :
  (forall richText,
     Forall (fun item => isEquation item = false
                         /\ annotations item = noStyle
                         /\ truthy (href item) = false) richText ->
     toInlineMarkdown richText = concat (map plain_text richText))
  /\ (forall r1 r2,
        toInlineMarkdown (r1 ++ r2) = toInlineMarkdown r1 ++ toInlineMarkdown r2).
Proof.
  split; [|apply toInlineMarkdown_app].
  unfold toInlineMarkdown. induction 1 as [|item rest (Hty & Ha & Hh) _ IH];
    [reflexivity|].
  simpl. rewrite IH. f_equal.
  destruct item as [t ty a h]. unfold inlineItem, isEquation in *. simpl in *.
  subst a. simpl.
  destruct ty; try discriminate; destruct h as [[|? ?]|]; done.
Qed.

Lemma toInlineMarkdown_plain_runs_witness :
  toInlineMarkdown [plainRun noStyle (lit "ab") None; plainRun noStyle (lit "cd") None]
  = concat (map plain_text
              [plainRun noStyle (lit "ab") None; plainRun noStyle (lit "cd") None]).
Proof.
  apply (proj1 toInlineMarkdown_plain_runs).
  repeat constructor.
Defined.

(** ** Trimming and titles *)

Lemma trimStart_split s :
  exists ws, s = ws ++ trimStart s /\ Forall (fun c => isWhiteSpace c = true) ws.
Proof.
  induction s as [|c r (ws & Hr & Hws)]; [by exists []|].
  simpl. destruct (isWhiteSpace c) eqn:Hc.
  - exists (c :: ws). split; [by rewrite Hr at 1 | by constructor].
  - by exists [].
Qed.

Lemma trimStart_head s c r : trimStart s = c :: r -> isWhiteSpace c = false.
Proof.
  induction s as [|d s IH]; simpl; [discriminate|].
  destruct (isWhiteSpace d) eqn:Hd; [exact IH|]. by intros [= <- _].
Qed.

Lemma trimStart_id c r : isWhiteSpace c = false -> trimStart (c :: r) = c :: r.
Proof. intros H. simpl. by rewrite H. Qed.

Lemma trimStart_snoc l c :
  isWhiteSpace c = false -> exists l', trimStart (l ++ [c]) = l' ++ [c].
Proof.
  intros Hc. induction l as [|d l (l' & IH)]; simpl.
  - rewrite Hc. by exists [].
  - destruct (isWhiteSpace d); [by exists l' | by exists (d :: l)].
Qed.

Lemma trimEnd_split t :
  exists ws, t = trimEnd t ++ ws /\ Forall (fun c => isWhiteSpace c = true) ws.
Proof.
  unfold trimEnd. destruct (trimStart_split (rev t)) as (ws & Ht & Hws).
  exists (rev ws). split; [|by apply Forall_rev].
  rewrite <- rev_app_distr, <- Ht. by rewrite rev_involutive.
Qed.

Lemma trimEnd_last t : forall c, last (trimEnd t) = Some c -> isWhiteSpace c = false.
Proof.
  unfold trimEnd. intros c.
  destruct (trimStart (rev t)) as [|d r] eqn:Hd; [discriminate|].
  simpl. rewrite last_snoc. intros [= <-]. by apply (trimStart_head _ _ _ Hd).
Qed.

Lemma trimEnd_cons c r :
  isWhiteSpace c = false -> exists r', trimEnd (c :: r) = c :: r'.
Proof.
  intros Hc. unfold trimEnd. simpl.
  destruct (trimStart_snoc (rev r) c Hc) as (l' & ->).
  rewrite rev_app_distr. simpl. eauto.
Qed.

(** The result of [trim]: the string without the white space around it. *)
Lemma trim_spec s :
  (exists ws1 ws2,
      s = ws1 ++ trim s ++ ws2
      /\ Forall (fun c => isWhiteSpace c = true) ws1
      /\ Forall (fun c => isWhiteSpace c = true) ws2)
  /\ (forall c r, trim s = c :: r -> isWhiteSpace c = false)
  /\ (forall c, last (trim s) = Some c -> isWhiteSpace c = false).
Proof.
  unfold trim. split; [|split].
  - destruct (trimStart_split s) as (ws1 & Hs & H1).
    destruct (trimEnd_split (trimStart s)) as (ws2 & Ht & H2).
    exists ws1, ws2. split; [|done]. rewrite <- Ht. exact Hs.
  - intros c r Hc.
    destruct (trimStart s) as [|d t] eqn:Hd; [discriminate Hc|].
    pose proof (trimStart_head _ _ _ Hd) as Hw.
    destruct (trimEnd_cons d t Hw) as (r' & Hr'). rewrite Hr' in Hc.
    by injection Hc as <- _.
  - apply trimEnd_last.
Qed.

Lemma trim_cons c r : isWhiteSpace c = false -> exists r', trim (c :: r) = c :: r'.
Proof. intros Hc. unfold trim. rewrite trimStart_id by done. by apply trimEnd_cons. Qed.

Lemma getTitle_cases page :
  getTitle page = lit "Untitled-" ++ page_id page
  \/ exists title,
      List.find isTitleProperty (properties page) = Some (TitleProperty title)
      /\ getTitle page = trim (toInlineMarkdown title)
      /\ trim (toInlineMarkdown title) <> [].
Proof.
  unfold getTitle.
  destruct (List.find isTitleProperty (properties page)) as [[title|]|];
    [|by left|by left].
  destruct (trim (toInlineMarkdown title)) as [|c r] eqn:Ht; [by left|].
  right. exists title. rewrite Ht. done.
Qed.

Lemma getTitle_head page :
  exists c r, getTitle page = c :: r /\ isWhiteSpace c = false.
Proof.
  destruct (getTitle_cases page) as [->|(title & _ & -> & Hne)].
  - eexists _, _. split; reflexivity.
  - destruct (trim (toInlineMarkdown title)) as [|c r] eqn:Ht; [done|].
    exists c, r. split; [done|].
    by apply (proj1 (proj2 (trim_spec (toInlineMarkdown title))) c r).
Qed.

(** X3. The title of a page is never empty and never begins or ends
    with white space when it is taken from the page: it is the trimmed
    inline text of the first title property when that text is not blank.
    Without a title property, or with a blank title, it is [Untitled-]
    followed by the page identifier. *)
Theorem getTitle_spec page :
  (exists c r, getTitle page = c :: r /\ isWhiteSpace c = false)
  /\ (Forall (fun property => isTitleProperty property = false) (properties page) ->
      getTitle page = lit "Untitled-" ++ page_id page)
  /\ (forall title,
        List.find isTitleProperty (properties page) = Some (TitleProperty title) ->
        (trim (toInlineMarkdown title) = [] ->
         getTitle page = lit "Untitled-" ++ page_id page)
        /\ (trim (toInlineMarkdown title) <> [] ->
            getTitle page = trim (toInlineMarkdown title)
            /\ forall c, last (getTitle page) = Some c -> isWhiteSpace c = false)).
Proof.
  split; [|split].
  - apply getTitle_head.
  - intros Hnone. unfold getTitle.
    destruct (List.find isTitleProperty (properties page)) as [p|] eqn:Hfind;
      [|done].
    apply find_some in Hfind as [Hin Hp].
    rewrite Forall_forall in Hnone.
    rewrite (Hnone p) in Hp by (by apply list_elem_of_In). discriminate.
  - intros title Hfind. unfold getTitle. rewrite Hfind. split.
    + by intros ->.
    + intros Hne.
      assert (Hg : (if 0 <? length (trim (toInlineMarkdown title))
                    then trim (toInlineMarkdown title)
                    else lit "Untitled-" ++ page_id page)
                   = trim (toInlineMarkdown title)).
      { by destruct (trim (toInlineMarkdown title)). }
      rewrite Hg. split; [done|].
      apply (proj2 (proj2 (trim_spec (toInlineMarkdown title)))).
Qed.

Lemma getTitle_spec_witness :
  getTitle (titledPage (lit "a") (lit "  ")) = lit "Untitled-" ++ lit "a".
Proof.
  apply (proj1 (proj2 (proj2 (getTitle_spec (titledPage (lit "a") (lit "  "))))
                  [plainRun noStyle (lit "  ") None] eq_refl)).
  reflexivity.
Defined.

(** ** Sanitized names *)

Lemma sanitizeFileName_cons c r :
  isWhiteSpace c = false ->
  exists r', sanitizeFileName (c :: r) = (if isUnsafe c then HYPHEN else c) :: r'.
Proof.
  intros Hc. unfold sanitizeFileName, replaceClass. cbn [map].
  set (c' := if isUnsafe c then HYPHEN else c).
  assert (Hc' : isWhiteSpace c' = false) by (subst c'; by destruct (isUnsafe c)).
  cbn [replaceRuns]. rewrite Hc'.
  match goal with
  | |- context [trim (c' :: ?x)] => destruct (trim_cons c' x Hc') as (r' & ->)
  end.
  simpl. eauto.
Qed.

Lemma baseNameOf_sanitized_title page :
  baseNameOf (sanitizeFileName (getTitle page)) = sanitizeFileName (getTitle page).
Proof.
  destruct (getTitle_head page) as (c & r & -> & Hc).
  destruct (sanitizeFileName_cons c r Hc) as (r' & Hr').
  unfold baseNameOf. by rewrite Hr'.
Qed.

(** X4. The sanitized title of a page is never empty, so in [run] the
    stem of a file name is always the sanitized title itself: the
    [Untitled] stem of [ensureUniqueFileName] is not used there. *)
Theorem sanitized_title_nonempty page :
  sanitizeFileName (getTitle page) <> []
  /\ baseNameOf (sanitizeFileName (getTitle page)) = sanitizeFileName (getTitle page).
Proof.
  split; [|apply baseNameOf_sanitized_title].
  destruct (getTitle_head page) as (c & r & -> & Hc).
  destruct (sanitizeFileName_cons c r Hc) as (r' & Hr'). by rewrite Hr'.
Qed.

Lemma Forall_replaceRuns_spaces inRun s :
  Forall (fun c => isWhiteSpace c = true -> c = SP) (replaceRuns inRun s).
Proof.
  revert inRun. induction s as [|c r IH]; intros inRun; simpl; [constructor|].
  destruct (isWhiteSpace c) eqn:Hc.
  - destruct inRun; [apply IH|]. constructor; [done | apply IH].
  - constructor; [|apply IH]. intros Hc'. congruence.
Qed.

Lemma replaceRuns_clean s :
  Forall (fun c => isWhiteSpace c = false) s -> replaceRuns false s = s.
Proof.
  induction 1 as [|c r Hc _ IH]; simpl; [done|]. by rewrite Hc, IH.
Qed.

Lemma trim_clean s : Forall (fun c => isWhiteSpace c = false) s -> trim s = s.
Proof.
  intros H. unfold trim, trimEnd.
  assert (Hid : forall t, Forall (fun c => isWhiteSpace c = false) t -> trimStart t = t).
  { intros t Ht. destruct Ht as [|c r Hc _]; [done|]. by apply trimStart_id. }
  rewrite (Hid s H), (Hid (rev s)) by (by apply Forall_rev).
  apply rev_involutive.
Qed.

(** X5. A sanitized name does not begin with white space, and the only
    white space in it is the space character. A name of at most 180 code
    units without unsafe characters and without white space is returned
    unchanged. *)
Theorem sanitizeFileName_shape name :
  (forall c r, sanitizeFileName name = c :: r -> isWhiteSpace c = false)
  /\ Forall (fun c => isWhiteSpace c = true -> c = SP) (sanitizeFileName name)
  /\ (Forall (fun c => isUnsafe c = false /\ isWhiteSpace c = false) name ->
      length name <= 180 ->
      sanitizeFileName name = name).
Proof.
  unfold sanitizeFileName. split; [|split].
  - intros c r Hc.
    destruct (trim (replaceRuns false (replaceClass isUnsafe HYPHEN name)))
      as [|d t] eqn:Ht; [by rewrite take_nil in Hc|].
    simpl in Hc. injection Hc as <- _.
    by apply (proj1 (proj2 (trim_spec _)) d t Ht).
  - apply Forall_take, Forall_trim, Forall_replaceRuns_spaces.
  - intros Hclean Hlen.
    assert (Hmap : replaceClass isUnsafe HYPHEN name = name).
    { unfold replaceClass. clear Hlen.
      induction Hclean as [|c r [Hc _] _ IH]; simpl; [done|]. by rewrite Hc, IH. }
    assert (Hws : Forall (fun c => isWhiteSpace c = false) name).
    { eapply Forall_impl; [exact Hclean|]. by intros c [_ ?]. }
    rewrite Hmap, (replaceRuns_clean _ Hws), (trim_clean _ Hws).
    by apply take_ge.
Qed.

Lemma sanitizeFileName_shape_witness :
  sanitizeFileName (lit "Trip") = lit "Trip".
Proof.
  apply (proj2 (proj2 (sanitizeFileName_shape (lit "Trip")))).
  - repeat constructor.
  - simpl. lia.
Defined.

(** C8 fails as stated: the delete character 0x7F is a control
    character and stays in the sanitized name. *)
Lemma C8_delete_character_kept :
  isControlCharacter 127 = true
  /\ isForbidden 127 = true
  /\ sanitizeFileName (lit "a" ++ [127%N] ++ lit "b") = lit "a" ++ [127%N] ++ lit "b"
  /\ ~ (forall name, Forall (fun c => isForbidden c = false) (sanitizeFileName name)).
Proof.
  repeat split; try (vm_compute; reflexivity).
  intros H. specialize (H (lit "a" ++ [127%N] ++ lit "b")).
  rewrite Forall_forall in H. specialize (H 127%N).
  assert (Hin : 127%N ∈ sanitizeFileName (lit "a" ++ [127%N] ++ lit "b")).
  { vm_compute. apply elem_of_cons. right. apply elem_of_cons. by left. }
  specialize (H Hin). discriminate H.
Qed.

(** C8, amended. [sanitizeFileName] replaces each of the nine listed
    characters and each control character below 0x20 by a hyphen (the
    delete character and the C1 controls are kept), then collapses every
    run of white space to one space, then removes the white space at both
    ends, then keeps the first 180 code units of what is left. The title
    My/Note:<Test>* gives My-Note--Test--; spaces around and inside a
    title are trimmed and collapsed; a tab is replaced by a hyphen before
    white space is looked at. No result contains a listed character or a
    control character below 0x20, and none is longer than 180. *)
Theorem C8_sanitize :
  (forall name,
     exists leading kept trailing rest,
       collapseWhitespace (replaceForbidden name) = leading ++ kept ++ trailing
       /\ Forall (fun c => isWhiteSpace c = true) leading
       /\ Forall (fun c => isWhiteSpace c = true) trailing
       /\ (forall c r, kept = c :: r -> isWhiteSpace c = false)
       /\ (forall c, last kept = Some c -> isWhiteSpace c = false)
       /\ kept = sanitizeFileName name ++ rest
       /\ length (sanitizeFileName name) = 180 `min` length kept)
  /\ sanitizeFileName (lit "My/Note:<Test>*") = lit "My-Note--Test--"
  /\ sanitizeFileName (lit "  Daily   Note  ") = lit "Daily Note"
  /\ sanitizeFileName (lit "a" ++ [9%N] ++ lit "b") = lit "a-b"
  /\ sanitizeFileName (replicate 200 97%N) = replicate 180 97%N
  /\ (forall name,
        Forall (fun c => isReplaced c = false) (sanitizeFileName name)
        /\ length (sanitizeFileName name) <= 180).
Proof.
  split; [|repeat split; try (vm_compute; reflexivity)].
  - intros name.
    assert (Hr : replaceRuns false (replaceClass isUnsafe HYPHEN name)
                 = collapseWhitespace (replaceForbidden name)).
    { rewrite (proj1 (replaceRuns_collapse _)).
      unfold replaceClass, replaceForbidden. f_equal. apply map_ext.
      intros c. by rewrite isUnsafe_isReplaced. }
    destruct (trim_spec (collapseWhitespace (replaceForbidden name)))
      as ((leading & trailing & Hsplit & Hl & Ht) & Hhead & Hlast).
    exists leading, (trim (collapseWhitespace (replaceForbidden name))), trailing,
      (drop 180 (trim (collapseWhitespace (replaceForbidden name)))).
    unfold sanitizeFileName. rewrite Hr.
    split; [exact Hsplit|]. split; [exact Hl|]. split; [exact Ht|].
    split; [exact Hhead|]. split; [exact Hlast|].
    split; [by rewrite take_drop | by rewrite length_take].
  - unfold sanitizeFileName.
    apply Forall_take, Forall_trim, Forall_replaceRuns; [reflexivity|].
    eapply Forall_impl; [apply Forall_replaceClass|].
    intros c Hc. by rewrite <- isUnsafe_isReplaced.
  - unfold sanitizeFileName. rewrite length_take. lia.
Qed.

Lemma C8_sanitize_witness :
  sanitizeFileName (lit "  Daily   Note  ") = lit "Daily Note".
Proof. exact (proj1 (proj2 (proj2 C8_sanitize))). Defined.

(** ** Rejections of the renderer *)

Lemma Promise_all_rejected {A B} (f : A -> outcome B) l e :
  Promise_all (map f l) = Rejected e -> exists x, x ∈ l /\ f x = Rejected e.
Proof.
  induction l as [|a l IH]; simpl; unbind; [discriminate|].
  destruct (f a) as [v|e'|] eqn:Ha; try discriminate.
  - destruct (Promise_all (map f l)) as [vs|e'|]; try discriminate.
    intros [= ->]. destruct (IH eq_refl) as (x & Hx & Hfx).
    exists x. split; [by right | done].
  - intros [= ->]. exists a. split; [by left | done].
Qed.

Lemma Promise_all_resolves {A B} (f : A -> outcome B) l :
  Forall (fun x => exists v, f x = Resolved v) l ->
  exists vs, Promise_all (map f l) = Resolved vs.
Proof.
  induction 1 as [|a l [v Ha] _ [vs IH]]; simpl; unbind; [by eexists|].
  rewrite Ha, IH. by eexists.
Qed.

Lemma stringifyBlock_rejected notion fuel block depth e :
  stringifyBlock notion fuel block depth = Rejected e ->
  exists blockId cursor, blocks_children_list notion blockId cursor = Failure e.
Proof.
  revert block depth. induction fuel as [|fuel IH]; intros block depth;
    [discriminate|].
  simpl. unbind.
  destruct (if has_children block then _ else _) as [nested|e'|] eqn:Hn;
    try discriminate.
  - destruct (0 <? length nested); [|discriminate].
    destruct (Promise_all _) as [lines|e'|] eqn:Hall; try discriminate.
    intros [= ->]. apply Promise_all_rejected in Hall as (child & _ & Hchild).
    by apply IH in Hchild.
  - intros [= ->]. destruct (has_children block); [|discriminate].
    unfold fetchBlocksRecursively in Hn.
    apply fetchPage_rejected in Hn as (cursor & Hc). eauto.
Qed.

(** X6. Rendering is rejected only with a reason with which a listing of
    children failed, and the failure to list the children of a block
    rejects its rendering whatever its kind, also for the kinds that never
    show their children. *)
Theorem rendering_rejected_by_listing notion :
  (forall fuel block depth e,
     stringifyBlock notion fuel block depth = Rejected e ->
     exists blockId cursor, blocks_children_list notion blockId cursor = Failure e)
  /\ (forall fuel blocks depth e,
        stringifyBlocks notion fuel blocks depth = Rejected e ->
        exists blockId cursor,
          blocks_children_list notion blockId cursor = Failure e)
  /\ (forall fuel block depth e,
        has_children block = true ->
        blocks_children_list notion (block_id block) None = Failure e ->
        stringifyBlock notion (S (S fuel)) block depth = Rejected e).
Proof.
  split; [|split].
  - apply stringifyBlock_rejected.
  - intros fuel blocks depth e. unfold stringifyBlocks. unbind.
    destruct (Promise_all _) as [lines|e'|] eqn:Hall; try discriminate.
    intros [= ->]. apply Promise_all_rejected in Hall as (block & _ & Hb).
    by apply stringifyBlock_rejected in Hb.
  - intros fuel block depth e Hc Hfail.
    cbn [stringifyBlock]. rewrite Hc. unfold fetchBlocksRecursively.
    cbn [fetchPage]. rewrite Hfail. reflexivity.
Qed.

Lemma rendering_rejected_by_listing_witness :
  stringifyBlock offline 2 headingBlock 0 = Rejected (lit "offline").
Proof.
  apply (proj2 (proj2 (rendering_rejected_by_listing offline)) 0 headingBlock 0);
    reflexivity.
Defined.

(** X7. A block of a kind other than paragraph, to-do, toggle, quote,
    callout and list item is rendered without its children: the children
    are fetched and rendered, and the result does not show them. *)
Theorem children_not_shown notion fuel block depth s :
  appendsChildren (data block) = false ->
  stringifyBlock notion fuel block depth = Resolved s ->
  s = blockTemplate block depth []
  /\ forall nestedMarkdown,
      blockTemplate block depth nestedMarkdown = blockTemplate block depth [].
Proof.
  intros Hkind H.
  assert (Hall : forall nm, blockTemplate block depth nm = blockTemplate block depth []).
  { intros nm. unfold blockTemplate. by destruct (data block). }
  destruct (stringifyBlock_resolved _ _ _ _ _ H) as (f & n & nm & _ & _ & _ & ->).
  split; [apply Hall | exact Hall].
Qed.

Lemma children_not_shown_witness :
  lit "# Title" = blockTemplate headingBlock 0 [].
Proof.
  apply (children_not_shown headingWorkspace 2 headingBlock 0 (lit "# Title"));
    [reflexivity | vm_compute; reflexivity].
Defined.

(** ** Lists of blocks *)

Lemma Promise_all_app {A} (ps qs : list (outcome A)) :
  Promise_all (ps ++ qs)
  = (a ← Promise_all ps; b ← Promise_all qs; Resolved (a ++ b)).
Proof.
  induction ps as [|p ps IH]; simpl; unbind.
  - by destruct (Promise_all qs).
  - destruct p as [v|e|]; try reflexivity. rewrite IH. unbind.
    destruct (Promise_all ps) as [vs|e|]; try reflexivity.
    by destruct (Promise_all qs).
Qed.

Lemma keptLines_app l1 l2 : keptLines (l1 ++ l2) = keptLines l1 ++ keptLines l2.
Proof. unfold keptLines. by rewrite map_app, List.filter_app. Qed.

Lemma trim_nil : trim [] = [].
Proof. reflexivity. Qed.

Lemma keptLines_nonempty l : Forall (fun line => line <> []) (keptLines l).
Proof.
  unfold keptLines. apply Forall_forall. intros line Hline.
  apply list_elem_of_In, filter_In in Hline as [_ Hkeep].
  intros ->. discriminate Hkeep.
Qed.

Lemma join_cons sep p q rest :
  join sep (p :: q :: rest) = p ++ sep ++ join sep (q :: rest).
Proof. reflexivity. Qed.

Lemma join_app sep l1 l2 :
  l1 <> [] -> l2 <> [] ->
  join sep (l1 ++ l2) = join sep l1 ++ sep ++ join sep l2.
Proof.
  intros H1 H2. induction l1 as [|p l1 IH]; [done|].
  destruct l1 as [|q l1].
  - destruct l2 as [|r l2]; [done|]. reflexivity.
  - cbn [app] in *. rewrite !join_cons, IH by done. by rewrite <- !app_assoc.
Qed.

Lemma join_nil_inv sep l :
  Forall (fun line => line <> []) l -> join sep l = [] -> l = [].
Proof.
  intros Hl. destruct Hl as [|p l Hp Hl]; [done|].
  destruct l as [|q l]; simpl; [done|].
  intros H. by apply app_eq_nil in H as [-> _].
Qed.

Lemma joinLines_app l1 l2 :
  joinLines (l1 ++ l2)
  = if (0 <? length (joinLines l1)) && (0 <? length (joinLines l2))
    then joinLines l1 ++ nl ++ nl ++ joinLines l2
    else joinLines l1 ++ joinLines l2.
Proof.
  unfold joinLines. rewrite keptLines_app.
  pose proof (join_nil_inv (nl ++ nl) _ (keptLines_nonempty l1)) as H1.
  pose proof (join_nil_inv (nl ++ nl) _ (keptLines_nonempty l2)) as H2.
  destruct (keptLines l1) as [|p k1] eqn:E1; [by rewrite andb_false_l|].
  destruct (keptLines l2) as [|q k2] eqn:E2.
  { rewrite !app_nil_r. by rewrite andb_false_r. }
  rewrite join_app by done.
  destruct (join (nl ++ nl) (p :: k1)) as [|? ?] eqn:J1; [by specialize (H1 eq_refl)|].
  destruct (join (nl ++ nl) (q :: k2)) as [|? ?] eqn:J2; [by specialize (H2 eq_refl)|].
  reflexivity.
Qed.

Lemma trim_blank s : trim s = [] <-> forallb isWhiteSpace s = true.
Proof.
  split.
  - intros Ht. destruct (proj1 (trim_spec s)) as (ws1 & ws2 & Hs & H1 & H2).
    rewrite Ht in Hs. rewrite Hs. simpl. apply forallb_forall. intros c Hc.
    apply in_app_or in Hc as [Hc|Hc].
    + rewrite Forall_forall in H1. by apply H1, list_elem_of_In.
    + rewrite Forall_forall in H2. by apply H2, list_elem_of_In.
  - intros Hall. unfold trim.
    assert (Hstart : trimStart s = []).
    { induction s as [|c r IH]; [done|]. simpl in *.
      apply andb_true_iff in Hall as [-> Hr]. by apply IH. }
    by rewrite Hstart.
Qed.

Lemma keptLines_singleton s :
  keptLines [s]
  = if forallb isWhiteSpace (normalizeText s) then [] else [normalizeText s].
Proof.
  unfold keptLines. cbn [map List.filter].
  destruct (forallb isWhiteSpace (normalizeText s)) eqn:Hb.
  - apply trim_blank in Hb. by rewrite Hb.
  - destruct (trim (normalizeText s)) as [|c r] eqn:Ht; [|reflexivity].
    apply trim_blank in Ht. congruence.
Qed.

(** A list of one block: its rendering with the line endings
    normalized, or nothing when that is only white space. *)
Lemma stringifyBlocks_singleton notion fuel block depth s :
  stringifyBlock notion fuel block depth = Resolved s ->
  stringifyBlocks notion fuel [block] depth
  = Resolved (if forallb isWhiteSpace (normalizeText s) then []
              else normalizeText s).
Proof.
  intros H. unfold stringifyBlocks. cbn [map Promise_all]. rewrite H. unbind.
  unfold joinLines. rewrite keptLines_singleton.
  by destruct (forallb isWhiteSpace (normalizeText s)).
Qed.

Lemma stringifyBlocks_append notion fuel blocks1 blocks2 depth s1 s2 :
  stringifyBlocks notion fuel blocks1 depth = Resolved s1 ->
  stringifyBlocks notion fuel blocks2 depth = Resolved s2 ->
  stringifyBlocks notion fuel (blocks1 ++ blocks2) depth
  = Resolved (if (0 <? length s1) && (0 <? length s2)
              then s1 ++ nl ++ nl ++ s2 else s1 ++ s2).
Proof.
  unfold stringifyBlocks. unbind. rewrite map_app, Promise_all_app. unbind.
  destruct (Promise_all (map _ blocks1)) as [l1| |]; try discriminate.
  destruct (Promise_all (map _ blocks2)) as [l2| |]; try discriminate.
  intros [= <-] [= <-]. by rewrite joinLines_app.
Qed.

(** X8. The rendering of a list of blocks is the renderings of its
    parts with one blank line between them. A list of one block gives
    the rendering of the block with its line endings normalized, or
    nothing when that consists of white space only; so a block whose
    rendering is blank, be it empty or made of spaces, leaves nothing in
    the rendering of a list, not even the blank line. The empty list
    renders to the empty string. *)
Theorem stringifyBlocks_app notion fuel depth :
  (forall blocks1 blocks2 s1 s2,
     stringifyBlocks notion fuel blocks1 depth = Resolved s1 ->
     stringifyBlocks notion fuel blocks2 depth = Resolved s2 ->
     stringifyBlocks notion fuel (blocks1 ++ blocks2) depth
     = Resolved (if (0 <? length s1) && (0 <? length s2)
                 then s1 ++ nl ++ nl ++ s2 else s1 ++ s2))
  /\ stringifyBlocks notion fuel [] depth = Resolved []
  /\ (forall block s,
        stringifyBlock notion fuel block depth = Resolved s ->
        stringifyBlocks notion fuel [block] depth
        = Resolved (if forallb isWhiteSpace (normalizeText s) then []
                    else normalizeText s))
  /\ (forall blocks1 block blocks2 s s1 s2,
        stringifyBlock notion fuel block depth = Resolved s ->
        forallb isWhiteSpace (normalizeText s) = true ->
        stringifyBlocks notion fuel blocks1 depth = Resolved s1 ->
        stringifyBlocks notion fuel blocks2 depth = Resolved s2 ->
        stringifyBlocks notion fuel (blocks1 ++ block :: blocks2) depth
        = stringifyBlocks notion fuel (blocks1 ++ blocks2) depth).
Proof.
  split; [|split; [|split]].
  - intros blocks1 blocks2 s1 s2. apply stringifyBlocks_append.
  - reflexivity.
  - intros block s. apply stringifyBlocks_singleton.
  - intros blocks1 block blocks2 s s1 s2 Hs Hblank H1 H2.
    pose proof (stringifyBlocks_singleton _ _ _ _ _ Hs) as Hone.
    rewrite Hblank in Hone.
    pose proof (stringifyBlocks_append _ _ [block] blocks2 _ _ _ Hone H2) as Htail.
    rewrite andb_false_l in Htail. cbn [app] in Htail.
    rewrite (stringifyBlocks_append _ _ _ _ _ _ _ H1 Htail).
    by rewrite (stringifyBlocks_append _ _ _ _ _ _ _ H1 H2).
Qed.

Lemma stringifyBlocks_app_witness :
  stringifyBlocks tripSiblings 1
    ([packedBags false] ++ textBlock (lit "blank") false (lit "   ") :: [buyTickets])
    0
  = stringifyBlocks tripSiblings 1 ([packedBags false] ++ [buyTickets]) 0.
Proof.
  apply (proj2 (proj2 (proj2 (stringifyBlocks_app tripSiblings 1 0)))
           [packedBags false] (textBlock (lit "blank") false (lit "   "))
           [buyTickets] (lit "   ") (lit "**Packed bags**")
           (lit "- [ ] Buy tickets"));
    vm_compute; reflexivity.
Defined.

(** C3, amended. A paragraph block is rendered to the empty string
    exactly when its composed inline text is empty, with or without
    children. A paragraph with text is rendered as its indentation and
    its text, followed, when it has children, by a line feed and the
    children rendered one level deeper. In the rendering of a list the
    paragraph is left out exactly when this is white space only. *)
Theorem C3_paragraph_omitted_iff_text_empty notion fuel block depth rich_text s :
  data block = Paragraph rich_text ->
  stringifyBlock notion fuel block depth = Resolved s ->
  (s = [] <-> toInlineMarkdown rich_text = [])
  /\ (toInlineMarkdown rich_text <> [] ->
      exists fuel' nested,
        fuel = S fuel'
        /\ (if has_children block
            then fetchBlocksRecursively notion fuel' (block_id block)
            else Resolved []) = Resolved nested
        /\ (nested = [] -> s = indent depth ++ toInlineMarkdown rich_text)
        /\ (nested <> [] ->
            exists children,
              stringifyBlocks notion fuel' nested (depth + 1) = Resolved children
              /\ s = indent depth ++ toInlineMarkdown rich_text ++ nl ++ children))
  /\ stringifyBlocks notion fuel [block] depth
     = Resolved (if forallb isWhiteSpace (normalizeText s) then []
                 else normalizeText s).
Proof.
  intros Hd H. split; [|split; [|by apply stringifyBlocks_singleton]].
  - destruct (stringifyBlock_resolved _ _ _ _ _ H) as (f & n & nm & _ & _ & _ & ->).
    unfold blockTemplate. rewrite Hd.
    destruct (toInlineMarkdown rich_text) as [|c text] eqn:Ht; simpl; [done|].
    split; [|discriminate]. intros E.
    apply (f_equal length) in E. rewrite length_app in E. simpl in E. lia.
  - intros Hne.
    destruct (stringifyBlock_resolved _ _ _ _ _ H)
      as (f & n & nm & -> & Hn & Hnm & ->).
    exists f, n. split; [done|]. split; [done|].
    assert (Hs : blockTemplate block depth nm
                 = indent depth ++ toInlineMarkdown rich_text ++ nm).
    { unfold blockTemplate. rewrite Hd.
      by destruct (toInlineMarkdown rich_text). }
    rewrite Hs. destruct n as [|child n].
    + simpl in Hnm. subst nm. split; [by rewrite app_nil_r | done].
    + split; [done|]. intros _.
      change (0 <? length (child :: n)) with true in Hnm. cbv iota in Hnm.
      destruct Hnm as (lines & Hall & ->). exists (joinLines lines).
      split; [|by rewrite <- ?app_assoc].
      unfold stringifyBlocks. rewrite Hall. reflexivity.
Qed.

Lemma C3_paragraph_omitted_iff_text_empty_witness :
  exists children,
    stringifyBlocks tripNested 1 [buyTickets] (0 + 1) = Resolved children
    /\ lit "**Packed bags**" ++ nl ++ lit "  - [ ] Buy tickets"
       = indent 0
           ++ toInlineMarkdown [plainRun boldOnly (lit "Packed bags") None]
           ++ nl ++ children.
Proof.
  destruct (proj1 (proj2 (C3_paragraph_omitted_iff_text_empty tripNested 2
                            (packedBags true) 0
                            [plainRun boldOnly (lit "Packed bags") None]
                            (lit "**Packed bags**" ++ nl ++ lit "  - [ ] Buy tickets")
                            eq_refl eq_refl))
              ltac:(discriminate))
    as (fuel' & nested & Hfuel & Hnested & _ & Hchildren).
  injection Hfuel as <-.
  assert (Hn : nested = [buyTickets]).
  { vm_compute in Hnested. by injection Hnested as <-. }
  subst nested. apply Hchildren. discriminate.
Defined.

(** ** Finite trees are rendered *)

Lemma stringifyBlock_finite notion h :
  forall block fuel depth,
    FiniteTree notion h block -> h <= fuel ->
    exists s, stringifyBlock notion fuel block depth = Resolved s.
Proof.
  induction h as [|h IH]; intros block fuel depth HF Hle; [inversion HF|].
  destruct fuel as [|fuel]; [lia|].
  inversion HF as [h' b Hleaf | h' b responses Hc Hserved Hlen Hchildren]; subst.
  - eexists. by apply stringifyBlock_leaf.
  - cbn [stringifyBlock]. rewrite Hc. unfold fetchBlocksRecursively.
    rewrite (fetchPage_served _ _ _ Hserved fuel []) by lia.
    cbn [snd app]. unbind.
    set (children := concat (map (fun r => filterFull (results r)) responses)) in *.
    destruct (0 <? length children); [|by eexists].
    destruct (Promise_all_resolves
                (fun child => stringifyBlock notion fuel child (depth + 1)) children)
      as [lines Hlines].
    { apply Forall_forall. intros child Hchild.
      apply (IH child fuel (depth + 1)); [by apply Hchildren | lia]. }
    rewrite Hlines. by eexists.
Qed.

(** X9. When the API serves a finite tree below a block (every listing
    of children ends, and so does the nesting), the block is rendered:
    with fuel for the height and the pages, [stringifyBlock] resolves, and
    so does [stringifyBlocks] on a list of such blocks. *)
Theorem finite_trees_are_rendered notion h fuel depth :
  h <= fuel ->
  (forall block,
     FiniteTree notion h block ->
     exists s, stringifyBlock notion fuel block depth = Resolved s)
  /\ (forall blocks,
        Forall (FiniteTree notion h) blocks ->
        exists s, stringifyBlocks notion fuel blocks depth = Resolved s).
Proof.
  intros Hle. split.
  - intros block HF. by apply (stringifyBlock_finite notion h).
  - intros blocks HF. unfold stringifyBlocks. unbind.
    destruct (Promise_all_resolves
                (fun block => stringifyBlock notion fuel block depth) blocks)
      as [lines Hlines].
    { eapply Forall_impl; [exact HF|]. intros block Hb.
      by apply (stringifyBlock_finite notion h). }
    rewrite Hlines. by eexists.
Qed.

Lemma finite_trees_are_rendered_witness :
  exists s, stringifyBlock tripNested 2 (packedBags true) 0 = Resolved s.
Proof.
  apply (proj1 (finite_trees_are_rendered tripNested 2 2 0 (le_n 2))).
  apply (finite_node tripNested 1 (packedBags true)
           [{| results := [Full buyTickets]; has_more := false;
               next_cursor := None |}]).
  - reflexivity.
  - apply served_last; reflexivity.
  - simpl. lia.
  - intros child Hchild. apply list_elem_of_singleton in Hchild as ->.
    by apply finite_leaf.
Defined.

(** ** The collector against sources that do not end or that fail *)

(** X10. The collector has no bound of its own on the number of pages:
    against a listing whose every answer has more to give and a cursor,
    it makes as many requests as it is allowed and does not settle. *)
Theorem collector_follows_endless_source {T}
    (list_call : option jsstring -> reply (ListResponse T)) :
  (forall cursor, exists response,
      list_call cursor = Answer response
      /\ has_more response = true /\ truthy (next_cursor response) = true) ->
  forall fuel cursor acc,
    (fetchPage fuel list_call cursor acc).2 = OutOfFuel
    /\ length (fetchPage fuel list_call cursor acc).1 = fuel.
Proof.
  intros Hmore fuel. induction fuel as [|fuel IH]; intros cursor acc; [done|].
  destruct (Hmore cursor) as (r & Hc & Hm & Ht).
  rewrite (fetchPage_S _ _ _ _ _ Hc). unfold continues. rewrite Hm, Ht.
  destruct (IH (next_cursor r) (acc ++ filterFull (results r))) as [H2 H1].
  simpl. by rewrite H2, H1.
Qed.

Lemma collector_follows_endless_source_witness :
  (fetchPage 5 (@endless nat) None []).2 = OutOfFuel
  /\ length (fetchPage 5 (@endless nat) None []).1 = 5.
Proof.
  apply (collector_follows_endless_source (@endless nat)).
  intros cursor. eexists. repeat split; reflexivity.
Defined.

Lemma fetchPage_rejected_last {T} fuel
    (list_call : option jsstring -> reply (ListResponse T)) cursor acc e :
  (fetchPage fuel list_call cursor acc).2 = Rejected e ->
  exists failing,
    last (fetchPage fuel list_call cursor acc).1 = Some failing
    /\ list_call failing = Failure e.
Proof.
  revert cursor acc. induction fuel as [|fuel IH]; intros cursor acc; simpl;
    [discriminate|].
  destruct (list_call cursor) as [r|e'] eqn:Hc.
  - destruct (has_more r && truthy (next_cursor r)); simpl; [|discriminate].
    intros H. destruct (IH _ _ H) as (failing & Hlast & Hfail).
    exists failing. split; [|done].
    destruct (fetchPage fuel list_call (next_cursor r) _).1; [done | exact Hlast].
  - simpl. intros [= ->]. by exists cursor.
Qed.

(** X11. The collector is rejected only by a failing call, which is the
    last one it makes, and with the reason of that call; the entries of
    the pages fetched before are not returned. A first call that fails
    rejects at once. *)
Theorem collector_rejection {T}
    (list_call : option jsstring -> reply (ListResponse T)) :
  (forall fuel cursor acc e,
     (fetchPage fuel list_call cursor acc).2 = Rejected e ->
     exists failing,
       last (fetchPage fuel list_call cursor acc).1 = Some failing
       /\ list_call failing = Failure e)
  /\ (forall fuel cursor acc e,
        list_call cursor = Failure e ->
        fetchPage (S fuel) list_call cursor acc = ([cursor], Rejected e)).
Proof.
  split.
  - intros fuel cursor acc e. apply fetchPage_rejected_last.
  - intros fuel cursor acc e H. simpl. by rewrite H.
Qed.

Lemma collector_rejection_witness :
  exists failing,
    last (fetchPage 2 (failsOnSecond [Full 1]) None []).1 = Some failing
    /\ failsOnSecond [Full 1] failing = Failure (lit "rate limited").
Proof.
  apply (proj1 (collector_rejection (failsOnSecond [Full 1])) 2 None []).
  reflexivity.
Defined.

(** ** The data sources of the database *)

(** X12. [fetchAllPages] ends in one of three ways: rejected with the
    reason of the failed retrieval of the database; rejected before any
    query with the message that the database has no data sources, when
    the answer lacks the key or lists none; or with the outcome of
    collecting the pages of the first data source. The error of a missing
    primary data source does not occur. *)
Theorem fetchAllPages_outcomes notion fuel notionDatabaseId :
  (exists e,
      databases_retrieve notion notionDatabaseId = Failure e
      /\ fetchAllPages notion fuel notionDatabaseId = ([], Rejected e))
  \/ (exists database,
         databases_retrieve notion notionDatabaseId = Answer database
         /\ (data_sources database = None \/ data_sources database = Some [])
         /\ fetchAllPages notion fuel notionDatabaseId
            = ([], Rejected (noDataSourcesMessage notionDatabaseId)))
  \/ (exists first rest,
         databases_retrieve notion notionDatabaseId
           = Answer {| data_sources := Some (first :: rest) |}
         /\ fetchAllPages notion fuel notionDatabaseId
            = (map (fun cursor => (data_source_id first, cursor))
                 (fetchPage fuel (dataSources_query notion (data_source_id first))
                    None []).1,
               (fetchPage fuel (dataSources_query notion (data_source_id first))
                  None []).2)).
Proof.
  unfold fetchAllPages.
  destruct (databases_retrieve notion notionDatabaseId) as [[sources]|e];
    [|left; by exists e].
  right. destruct sources as [[|first rest]|].
  - left. eexists. split; [reflexivity|]. split; [by right | reflexivity].
  - right. exists first, rest. split; reflexivity.
  - left. eexists. split; [reflexivity|]. split; [by left | reflexivity].
Qed.

(** ** Exhausting the names *)

Lemma find_seq_none_intro (f : nat -> bool) a n :
  (forall j, a <= j < a + n -> f j = false) -> List.find f (seq a n) = None.
Proof.
  revert a. induction n as [|n IH]; intros a H; simpl; [done|].
  rewrite (H a) by lia. apply IH. intros j Hj. apply H. lia.
Qed.

Lemma elem_of_allNames desiredName x :
  x ∈ allNames desiredName <->
  x = plainName desiredName
  \/ exists j, (2 <= j < 2 + maxProbes) /\ x = suffixedName desiredName j.
Proof.
  unfold allNames. rewrite elem_of_list_to_set, elem_of_cons, list_elem_of_In.
  rewrite in_map_iff. split; (intros [Hp|(j & Hj1 & Hj2)]; [by left | right]).
  - exists j. apply in_seq in Hj2. done.
  - exists j. split; [done|]. by apply in_seq.
Qed.

Lemma size_allNames desiredName : size (allNames desiredName) = S maxProbes.
Proof.
  unfold allNames. rewrite size_list_to_set.
  - cbn [length]. by rewrite List.length_map, List.length_seq.
  - apply NoDup_cons. split.
    + intros Hin. apply list_elem_of_In, in_map_iff in Hin as (j & Hj & _).
      by apply suffixedName_plainName in Hj.
    + change (NoDup (suffixedName desiredName <$> seq 2 maxProbes)).
      apply NoDup_fmap_2; [|apply NoDup_seq].
      intros i j. apply suffixedName_inj.
Qed.

Lemma ensureUniqueFileName_exhausted desiredName existing :
  ensureUniqueFileName desiredName existing
    = Rejected (exhaustedMessage (baseNameOf desiredName))
  <-> allNames desiredName ⊆ existing.
Proof.
  split.
  - intros H. apply (proj2 (ensureUniqueFileName_settles _ _)) in H as [Hp Hs].
    intros x Hx. apply elem_of_allNames in Hx as [->|(j & Hj & ->)]; auto.
  - intros Hall. rewrite ensureUniqueFileName_unfold.
    rewrite bool_decide_eq_true_2
      by (apply Hall, elem_of_allNames; by left).
    rewrite find_seq_none_intro; [reflexivity|].
    intros j Hj. apply negb_false_iff, bool_decide_eq_true.
    apply Hall, elem_of_allNames. right. by exists j.
Qed.

Lemma ensureUniqueFileName_resolves desiredName existing :
  size existing <= maxProbes ->
  exists name,
    ensureUniqueFileName desiredName existing = Resolved (name, {[name]} ∪ existing).
Proof.
  intros Hsize.
  destruct (ensureUniqueFileName desiredName existing) as [[name used]|e|] eqn:H.
  - exists name. by destruct (ensureUniqueFileName_resolved _ _ _ _ H) as (_ & -> & _).
  - exfalso.
    destruct (proj2 (ensureUniqueFileName_settles desiredName existing) e H)
      as [Hp Hs].
    assert (Hsub : allNames desiredName ⊆ existing).
    { intros x Hx. apply elem_of_allNames in Hx as [->|(j & Hj & ->)]; auto. }
    apply subseteq_size in Hsub. rewrite size_allNames in Hsub. lia.
  - by destruct (proj1 (ensureUniqueFileName_settles desiredName existing)).
Qed.

Lemma size_reserved (name : jsstring) (existing : gset jsstring) :
  name ∉ existing -> size ({[name]} ∪ existing) = S (size existing).
Proof.
  intros Hnew. rewrite size_union by set_solver. by rewrite size_singleton.
Qed.

Lemma allocateAll_resolves desiredNames usedNames :
  length desiredNames + size usedNames <= S maxProbes ->
  exists names used, allocateAll desiredNames usedNames = Resolved (names, used).
Proof.
  revert usedNames.
  induction desiredNames as [|d rest IH]; intros usedNames Hsize; simpl.
  - by eexists _, _.
  - simpl in Hsize.
    destruct (ensureUniqueFileName_resolves d usedNames) as [name Hname]; [lia|].
    destruct (ensureUniqueFileName_resolved _ _ _ _ Hname) as (Hnew & _ & _).
    rewrite Hname. unbind. cbn [fst snd].
    destruct (IH ({[name]} ∪ usedNames)) as (names & used & Hrest).
    { rewrite size_reserved by done. lia. }
    rewrite Hrest. by eexists _, _.
Qed.

(** X13. An allocation is rejected, with the message naming the stem,
    exactly when the unsuffixed name and the 10000 suffixed names of the
    stem are all in the set, which needs a set of at least 10001 names: a
    batch is allocated whenever its length and the size of the set add up
    to at most 10001. An allocated name is the stem followed by the
    extension, or by a space, an index from 2 to 10001 in parentheses
    and the extension; it was not in the set, and the new set is the old
    one with that name added, one name larger. *)
Theorem allocation_exhaustion :
  (forall desiredName existing,
     ensureUniqueFileName desiredName existing
       = Rejected (exhaustedMessage (baseNameOf desiredName))
     <-> allNames desiredName ⊆ existing)
  /\ (forall desiredNames usedNames,
        length desiredNames + size usedNames <= S maxProbes ->
        exists names used,
          allocateAll desiredNames usedNames = Resolved (names, used))
  /\ (forall desiredName existing name used,
        ensureUniqueFileName desiredName existing = Resolved (name, used) ->
        (name = baseNameOf desiredName ++ lit ".md"
         \/ exists index,
             (2 <= index < 2 + maxProbes)
             /\ name = baseNameOf desiredName ++ lit " ("
                         ++ numberToString index ++ lit ").md")
        /\ (name ∉ existing)
        /\ used = {[name]} ∪ existing
        /\ size used = S (size existing)).
Proof.
  split; [exact ensureUniqueFileName_exhausted|].
  split; [exact allocateAll_resolves|].
  intros desiredName existing name used H.
  destruct (ensureUniqueFileName_resolved _ _ _ _ H) as (Hnew & -> & Hshape).
  split; [|split; [exact Hnew|split; [reflexivity|by apply size_reserved]]].
  destruct Hshape as [[_ ->]|(_ & index & Hindex & -> & _)].
  - by left.
  - right. by exists index.
Qed.

Lemma allocation_exhaustion_witness :
  ensureUniqueFileName (lit "A") (allNames (lit "A"))
  = Rejected (exhaustedMessage (baseNameOf (lit "A"))).
Proof.
  apply (proj2 (proj1 allocation_exhaustion (lit "A") (allNames (lit "A")))).
  intros x Hx. exact Hx.
Defined.

(** ** The run as a whole *)

Lemma exportJob_resolved host notion fuel outputDir job file :
  exportJob host notion fuel outputDir job = Resolved file ->
  file.1 = path_join host outputDir job.2
  /\ writeFile host file.1 file.2 = Answer tt
  /\ exists blocks content,
      fetchBlocksRecursively notion fuel (page_id job.1) = Resolved blocks
      /\ stringifyBlocks notion fuel blocks 0 = Resolved content
      /\ file.2 = lit "---" ++ nl ++ lit "Written: "
                    ++ take 10 (created_time job.1)
                    ++ nl ++ lit "---" ++ nl ++ nl ++ content ++ nl.
Proof.
  unfold exportJob. unbind.
  destruct (fetchBlocksRecursively notion fuel (page_id job.1))
    as [blocks| |] eqn:Hb; try discriminate.
  destruct (stringifyBlocks notion fuel blocks 0) as [content| |] eqn:Hc;
    try discriminate.
  destruct (writeFile host _ _) as [[]|] eqn:Hw; [|discriminate].
  intros H. inversion H. subst file. cbn [fst snd].
  split; [reflexivity|]. split; [exact Hw|]. exists blocks, content.
  split; [done|]. split; [done|]. unfold formatDate. by rewrite <- ?app_assoc.
Qed.

Lemma exportJobs_names pages usedNames jobs used :
  exportJobs pages usedNames = Resolved (jobs, used) ->
  Forall (fun job =>
            job.2 = sanitizeFileName (getTitle job.1) ++ lit ".md"
            \/ exists index,
                (2 <= index < 2 + maxProbes)
                /\ job.2 = sanitizeFileName (getTitle job.1) ++ lit " ("
                             ++ numberToString index ++ lit ").md")
    jobs.
Proof.
  revert usedNames jobs used.
  induction pages as [|page rest IH]; intros usedNames jobs used; simpl; unbind.
  - intros [= <- <-]. constructor.
  - destruct (ensureUniqueFileName _ usedNames) as [[n u1]| |] eqn:Hn;
      try discriminate.
    cbn [fst snd].
    destruct (exportJobs rest u1) as [[js u2]| |] eqn:Hrest; try discriminate.
    cbn [fst snd]. intros [= <- <-]. constructor; [|by eapply IH].
    cbn [fst snd].
    destruct (ensureUniqueFileName_resolved _ _ _ _ Hn)
      as (_ & _ & [[_ ->]|(_ & index & Hindex & -> & _)]).
    + left. unfold plainName. by rewrite baseNameOf_sanitized_title.
    + right. exists index. split; [exact Hindex|].
      unfold suffixedName. by rewrite baseNameOf_sanitized_title.
Qed.

(** X14. When [run] resolves, the output directory was made and one
    file was written for every page of the first data source, in page
    order. The file names are pairwise distinct; a name is the sanitized
    title of its page followed by the extension, or by an index from 2 to
    10001 in parentheses and the extension; the file lies in the output
    directory; its content is the front matter with the first ten
    characters of the creation time, a blank line, the rendered blocks of
    the page and a line feed. *)
Theorem run_files host notion fuel notionDatabaseId files :
  run host notion fuel notionDatabaseId = Resolved files ->
  mkdir host (outputDirOf host) = Answer tt
  /\ exists jobs : list (Page * jsstring),
      (fetchAllPages notion fuel notionDatabaseId).2 = Resolved (map fst jobs)
      /\ NoDup (map snd jobs)
      /\ Forall2
           (fun job file =>
              (job.2 = sanitizeFileName (getTitle job.1) ++ lit ".md"
               \/ exists index,
                   (2 <= index < 2 + maxProbes)
                   /\ job.2 = sanitizeFileName (getTitle job.1) ++ lit " ("
                                ++ numberToString index ++ lit ").md")
              /\ file.1 = path_join host (outputDirOf host) job.2
              /\ writeFile host file.1 file.2 = Answer tt
              /\ exists blocks content,
                  fetchBlocksRecursively notion fuel (page_id job.1)
                    = Resolved blocks
                  /\ stringifyBlocks notion fuel blocks 0 = Resolved content
                  /\ file.2 = lit "---" ++ nl ++ lit "Written: "
                                ++ take 10 (created_time job.1)
                                ++ nl ++ lit "---" ++ nl ++ nl ++ content ++ nl)
           jobs files.
Proof.
  unfold run. fold (outputDirOf host). unbind.
  destruct (mkdir host (outputDirOf host)) as [[]|]; [|discriminate].
  destruct (fetchAllPages notion fuel notionDatabaseId).2 as [pages| |];
    try discriminate.
  destruct (exportJobs pages ∅) as [[jobs used]| |] eqn:Hjobs; try discriminate.
  cbn [fst]. intros Hall. split; [reflexivity|]. exists jobs.
  apply Promise_all_resolved in Hall.
  destruct (exportJobs_allocateAll _ _ _ _ Hjobs) as [Halloc Hpages].
  destruct (allocateAll_resolved _ _ _ _ Halloc) as (Hnodup & _ & _ & _).
  pose proof (exportJobs_names _ _ _ _ Hjobs) as Hnames.
  split; [by rewrite Hpages|]. split; [exact Hnodup|].
  clear -Hall Hnames.
  induction Hall as [|job file jobs files Hjob _ IH]; [constructor|].
  apply Forall_cons in Hnames as [Hname Hnames].
  constructor; [|by apply IH].
  split; [exact Hname|]. by apply exportJob_resolved in Hjob.
Qed.

Lemma run_files_witness :
  mkdir localHost (outputDirOf localHost) = Answer tt.
Proof.
  apply (run_files localHost tripNested 2 (lit "journal")
           [(lit "/srv/notion/exports/Trip.md", tripIndented)]).
  vm_compute. reflexivity.
Defined.

Lemma ensureUniqueFileName_rejected desiredName existing e :
  ensureUniqueFileName desiredName existing = Rejected e ->
  e = exhaustedMessage (baseNameOf desiredName).
Proof.
  rewrite ensureUniqueFileName_unfold.
  destruct (bool_decide _); [|discriminate].
  destruct (List.find _ _) as [[|index]|]; try discriminate; by intros [= <-].
Qed.

Lemma exportJobs_rejected pages usedNames e :
  exportJobs pages usedNames = Rejected e ->
  exists baseName, e = exhaustedMessage baseName.
Proof.
  revert usedNames. induction pages as [|page rest IH]; intros usedNames; simpl;
    unbind; [discriminate|].
  destruct (ensureUniqueFileName _ usedNames) as [[n u1]|e'|] eqn:Hn;
    try discriminate.
  - cbn [fst snd].
    destruct (exportJobs rest u1) as [[js u2]|e'|] eqn:Hrest; try discriminate.
    intros [= ->]. by eapply IH.
  - intros [= ->]. eexists. by apply (ensureUniqueFileName_rejected _ _ _ Hn).
Qed.

Lemma stringifyBlocks_rejected notion fuel blocks depth e :
  stringifyBlocks notion fuel blocks depth = Rejected e ->
  exists blockId cursor, blocks_children_list notion blockId cursor = Failure e.
Proof.
  unfold stringifyBlocks. unbind.
  destruct (Promise_all _) as [lines|e'|] eqn:Hall; try discriminate.
  intros [= ->]. apply Promise_all_rejected in Hall as (block & _ & Hb).
  by apply stringifyBlock_rejected in Hb.
Qed.

Lemma exportJob_rejected host notion fuel outputDir job e :
  exportJob host notion fuel outputDir job = Rejected e ->
  (exists blockId cursor, blocks_children_list notion blockId cursor = Failure e)
  \/ (exists content, writeFile host (path_join host outputDir job.2) content
                      = Failure e).
Proof.
  unfold exportJob. unbind.
  destruct (fetchBlocksRecursively notion fuel (page_id job.1))
    as [blocks|e'|] eqn:Hb; try discriminate.
  - destruct (stringifyBlocks notion fuel blocks 0) as [content|e'|] eqn:Hc;
      try discriminate.
    + destruct (writeFile host _ _) as [|e'] eqn:Hw; [discriminate|].
      intros [= ->]. right. eauto.
    + intros [= ->]. left. by apply stringifyBlocks_rejected in Hc.
  - intros [= ->]. left. unfold fetchBlocksRecursively in Hb.
    apply fetchPage_rejected in Hb as (cursor & Hc). eauto.
Qed.

(** X15. [run] is rejected only with the reason of a failed call
    (making the output directory, retrieving the database, querying the
    first data source, listing the children of a page or block, writing
    a file into the output directory), with the message that the
    database has no data sources, or with the message of an exhausted
    name allocation. *)
Theorem run_rejections host notion fuel notionDatabaseId e :
  run host notion fuel notionDatabaseId = Rejected e ->
  mkdir host (outputDirOf host) = Failure e
  \/ databases_retrieve notion notionDatabaseId = Failure e
  \/ e = noDataSourcesMessage notionDatabaseId
  \/ (exists dataSourceId cursor,
         dataSources_query notion dataSourceId cursor = Failure e)
  \/ (exists baseName, e = exhaustedMessage baseName)
  \/ (exists blockId cursor,
         blocks_children_list notion blockId cursor = Failure e)
  \/ (exists fileName content,
         writeFile host (path_join host (outputDirOf host) fileName) content
         = Failure e).
Proof.
  intros H. unfold run in H. fold (outputDirOf host) in H. unbind.
  destruct (mkdir host (outputDirOf host)) as [u|e'];
    [|left; congruence].
  right.
  destruct (fetchAllPages notion fuel notionDatabaseId).2 as [pages|e'|] eqn:Hp;
    try discriminate H.
  - destruct (exportJobs pages ∅) as [[jobs used]|e'|] eqn:Hjobs;
      try discriminate H.
    + cbn [fst] in H.
      apply Promise_all_rejected in H as (job & _ & Hjob).
      apply exportJob_rejected in Hjob as [Hlist|[content Hwrite]].
      * do 4 right. by left.
      * do 5 right. eauto.
    + injection H as ->. do 3 right. left. by apply exportJobs_rejected in Hjobs.
  - injection H as ->. unfold fetchAllPages in Hp.
    destruct (databases_retrieve notion notionDatabaseId) as [[sources]|e'];
      [|left; simpl in Hp; congruence].
    destruct sources as [[|first rest]|]; simpl in Hp.
    + right. left. by injection Hp as <-.
    + do 2 right. left. apply fetchPage_rejected in Hp as (cursor & Hc). eauto.
    + right. left. by injection Hp as <-.
Qed.

Lemma run_rejections_witness :
  mkdir readOnlyHost (outputDirOf readOnlyHost) = Failure (lit "EACCES")
  \/ databases_retrieve tripNested (lit "journal") = Failure (lit "EACCES")
  \/ lit "EACCES" = noDataSourcesMessage (lit "journal")
  \/ (exists dataSourceId cursor,
         dataSources_query tripNested dataSourceId cursor = Failure (lit "EACCES"))
  \/ (exists baseName, lit "EACCES" = exhaustedMessage baseName)
  \/ (exists blockId cursor,
         blocks_children_list tripNested blockId cursor = Failure (lit "EACCES"))
  \/ (exists fileName content,
         writeFile readOnlyHost
           (path_join readOnlyHost (outputDirOf readOnlyHost) fileName) content
         = Failure (lit "EACCES")).
Proof.
  apply (run_rejections readOnlyHost tripNested 2 (lit "journal")).
  vm_compute. reflexivity.
Defined.

Lemma exportJobs_resolves pages usedNames :
  length pages + size usedNames <= S maxProbes ->
  exists jobs used,
    exportJobs pages usedNames = Resolved (jobs, used) /\ map fst jobs = pages.
Proof.
  revert usedNames.
  induction pages as [|page rest IH]; intros usedNames Hsize; simpl.
  - by eexists _, _.
  - simpl in Hsize.
    destruct (ensureUniqueFileName_resolves (sanitizeFileName (getTitle page))
                usedNames) as [name Hname]; [lia|].
    destruct (ensureUniqueFileName_resolved _ _ _ _ Hname) as (Hnew & _ & _).
    rewrite Hname. unbind. cbn [fst snd].
    destruct (IH ({[name]} ∪ usedNames)) as (jobs & used & Hrest & Hfst).
    { rewrite size_reserved by done. lia. }
    rewrite Hrest. eexists _, _. split; [reflexivity|]. simpl. by rewrite Hfst.
Qed.

Lemma stringifyBlocks_finite notion h fuel blocks depth :
  h <= fuel ->
  Forall (FiniteTree notion h) blocks ->
  exists s, stringifyBlocks notion fuel blocks depth = Resolved s.
Proof.
  intros Hle HF. unfold stringifyBlocks. unbind.
  destruct (Promise_all_resolves
              (fun block => stringifyBlock notion fuel block depth) blocks)
    as [lines Hlines].
  { eapply Forall_impl; [exact HF|]. intros block Hb.
    by apply (stringifyBlock_finite notion h). }
  rewrite Hlines. by eexists.
Qed.

(** X16. [run] resolves, with one file for every page, when the host
    makes the output directory and writes every file into it, the
    database has a data source, the query of the first one ends and
    gives at most 10001 pages, and below every page the API serves a
    finite tree of blocks; the fuel has to cover the pages of every
    listing and the height of the trees. *)
Theorem run_resolves host notion fuel notionDatabaseId first rest responses h :
  accepts host ->
  databases_retrieve notion notionDatabaseId
    = Answer {| data_sources := Some (first :: rest) |} ->
  Served (dataSources_query notion (data_source_id first)) None responses ->
  length responses <= fuel ->
  length (concat (map (fun r => filterFull (results r)) responses))
    <= S maxProbes ->
  (forall page,
      page ∈ concat (map (fun r => filterFull (results r)) responses) ->
      exists blockResponses,
        Served (blocks_children_list notion (page_id page)) None blockResponses
        /\ length blockResponses <= fuel
        /\ Forall (FiniteTree notion h)
             (concat (map (fun r => filterFull (results r)) blockResponses))) ->
  h <= fuel ->
  exists files,
    run host notion fuel notionDatabaseId = Resolved files
    /\ length files
       = length (concat (map (fun r => filterFull (results r)) responses)).
Proof.
  intros [Hmk Hwrite] Hdb Hserved Hfuel Hcount Hpages Hh.
  set (pages := concat (map (fun r => filterFull (results r)) responses)) in *.
  unfold run, fetchAllPages. fold (outputDirOf host).
  rewrite Hmk, Hdb. cbn [data_sources length Nat.eqb head].
  cbn [snd]. rewrite (fetchPage_served _ _ _ Hserved fuel [] Hfuel).
  cbn [snd app]. fold pages. unbind.
  destruct (exportJobs_resolves pages ∅) as (jobs & used & Hjobs & Hfst).
  { rewrite size_empty. lia. }
  rewrite Hjobs. cbn [fst].
  destruct (Promise_all_resolves (exportJob host notion fuel (outputDirOf host)) jobs)
    as [files Hfiles].
  { apply Forall_forall. intros job Hjob.
    assert (Hpage : job.1 ∈ pages).
    { rewrite <- Hfst. apply list_elem_of_In, in_map. by apply list_elem_of_In. }
    destruct (Hpages _ Hpage) as (blockResponses & Hb & Hlen & Hfinite).
    unfold exportJob, fetchBlocksRecursively. unbind.
    rewrite (fetchPage_served _ _ _ Hb fuel [] Hlen). cbn [snd app].
    destruct (stringifyBlocks_finite notion h fuel _ 0 Hh Hfinite) as [s ->].
    rewrite Hwrite. by eexists. }
  exists files. split; [exact Hfiles|].
  apply Promise_all_resolved, Forall2_length in Hfiles.
  by rewrite <- Hfiles, <- Hfst, length_map.
Qed.

Lemma run_resolves_witness :
  exists files,
    run localHost tripNested 2 (lit "journal") = Resolved files
    /\ length files
       = length (concat (map (fun r => filterFull (results r))
                           [{| results := [Full tripPage]; has_more := false;
                               next_cursor := None |}])).
Proof.
  apply (run_resolves localHost tripNested 2 (lit "journal")
           {| data_source_id := lit "ds" |} []
           [{| results := [Full tripPage]; has_more := false;
               next_cursor := None |}] 2).
  - split; [reflexivity | intros fileName content; reflexivity].
  - reflexivity.
  - apply served_last; reflexivity.
  - simpl. lia.
  - apply Nat.leb_le. vm_compute. reflexivity.
  - intros page Hpage. apply list_elem_of_singleton in Hpage as ->.
    exists [{| results := [Full (packedBags true)]; has_more := false;
               next_cursor := None |}].
    split; [apply served_last; reflexivity|]. split; [simpl; lia|].
    constructor; [|constructor].
    apply (finite_node tripNested 1 (packedBags true)
             [{| results := [Full buyTickets]; has_more := false;
                 next_cursor := None |}]).
    + reflexivity.
    + apply served_last; reflexivity.
    + simpl. lia.
    + intros child Hchild. apply list_elem_of_singleton in Hchild as ->.
      by apply finite_leaf.
  - lia.
Defined.

(** X17. [run] does not resolve when the children of one of the pages
    cannot be listed, whatever the other pages give and on whatever
    host. *)
Theorem run_needs_every_page host notion fuel notionDatabaseId pages page e :
  (fetchAllPages notion fuel notionDatabaseId).2 = Resolved pages ->
  page ∈ pages ->
  blocks_children_list notion (page_id page) None = Failure e ->
  forall files, run host notion fuel notionDatabaseId <> Resolved files.
Proof.
  intros Hp Hpage Hfail files. unfold run. rewrite Hp. unbind.
  destruct (mkdir host _); [|discriminate].
  destruct (exportJobs pages ∅) as [[jobs used]| |] eqn:Hjobs; try discriminate.
  cbn [fst]. intros Hall. apply Promise_all_resolved in Hall.
  destruct (exportJobs_allocateAll _ _ _ _ Hjobs) as [_ Hfst].
  rewrite <- Hfst in Hpage.
  apply list_elem_of_In, in_map_iff in Hpage as (job & <- & Hjob).
  apply list_elem_of_In, list_elem_of_lookup in Hjob as [i Hi].
  destruct (Forall2_lookup_l _ _ _ _ _ Hall Hi) as (file & _ & Hfile).
  unfold exportJob, fetchBlocksRecursively in Hfile.
  destruct fuel as [|fuel]; [discriminate Hfile|].
  cbn [fetchPage] in Hfile. rewrite Hfail in Hfile. discriminate Hfile.
Qed.

Lemma run_needs_every_page_witness :
  run localHost secondPageFails 3 (lit "journal") <> Resolved [].
Proof.
  apply (run_needs_every_page localHost secondPageFails 3 (lit "journal")
           [titledPage (lit "a") (lit "One"); titledPage (lit "b") (lit "Two")]
           (titledPage (lit "b") (lit "Two")) (lit "offline")).
  - reflexivity.
  - apply elem_of_cons. right. apply elem_of_cons. by left.
  - reflexivity.
Defined.
